(** * comrot: a size-triggered, compressing log rotation writer

    A shallow embedding of [comrot.go] (package [comrot]) together with a
    model of the collaborators it calls: the [time] formatting of archive
    names, the [filepath] helpers, and the file operations of [os] and
    [ioutil] over a path-indexed store.

    Conventions.
    - Go's [int], [int64] are 64-bit two's complement integers, modelled
      in [Z] with the wrap-around written out ([wrap64]).
    - A Go [error] is [option Errno]; [None] is [nil].
    - A run-time panic is a result of its own ([Panic]); it cuts the rest
      of the method short but keeps every effect made so far.
    - The mutex [mu] is not modelled: every method is executed as one
      atomic step, which is what holding [mu] for the whole call gives.
    - A [go] statement is executed at the point where it is spawned; this
      is one of the schedules the program admits. *)

From Stdlib Require Import ZArith Ascii String.
From Stdlib.Strings Require Import Byte.
From stdpp Require Import base option list gmap strings sorting fin_maps.

Local Open Scope Z_scope.

(** ** Machine integers *)

Definition wrap64 (z : Z) : Z := (z + 2 ^ 63) mod 2 ^ 64 - 2 ^ 63.

(** [MaxInt = int(^uint(0) >> 1)] on a 64-bit platform. *)
Definition MaxInt : Z := Z.shiftr (Z.ones 64) 1.
Definition MB : Z := Z.shiftl 1 (10 * 2).
Definition DefaultMaxSize : Z := 10 * MB.
Definition DefaultMaxFiles : Z := MaxInt.

(** Go's [s[lo:hi]] on a string: a fault unless [lo <= hi <= len(s)]. *)
Definition slice (s : string) (lo hi : nat) : option string :=
  if decide (lo ≤ hi ∧ hi ≤ String.length s)%nat
  then Some (substring lo (hi - lo) s)
  else None.

(** ** Package [time], as far as the layout [RFC3339] goes *)

Module time.

(** A wall-clock reading: civil fields and the zone offset in minutes
    east of UTC. *)
Record Time := mkTime {
  year : nat; month : nat; day : nat;
  hour : nat; minute : nat; second : nat;
  nsec : Z;
  offset : Z
}.

Definition RFC3339 : string := "2006-01-02T15:04:05Z07:00".

Definition digit (n : nat) : ascii := ascii_of_nat (48 + n mod 10).

Definition pad2 (n : nat) : string :=
  String (digit (n / 10)) (String (digit n) EmptyString).

Definition pad4 (n : nat) : string :=
  String (digit (n / 1000)) (String (digit (n / 100)) (pad2 n)).

(** The layout element [Z07:00]: the letter Z for UTC, a signed
    [hh:mm] otherwise. *)
Definition zone (off : Z) : string :=
  if off =? 0 then "Z"
  else (if off <? 0 then "-" else "+")
         +:+ pad2 (Z.to_nat (Z.abs off / 60)) +:+ ":"
         +:+ pad2 (Z.to_nat (Z.abs off mod 60)).

(** [t.Format(time.RFC3339)]; the nanoseconds are not printed. *)
Definition Format (t : Time) : string :=
  pad4 (year t) +:+ "-" +:+ pad2 (month t) +:+ "-" +:+ pad2 (day t)
    +:+ "T" +:+ pad2 (hour t) +:+ ":" +:+ pad2 (minute t)
    +:+ ":" +:+ pad2 (second t) +:+ zone (offset t).

(** *** Parsing *)

Definition digit_val (c : ascii) : option nat :=
  let n := nat_of_ascii c in
  if ((48 <=? n) && (n <=? 57))%nat then Some (n - 48)%nat else None.

(** Exactly [k] decimal digits. *)
Fixpoint num_acc (k : nat) (acc : nat) (s : string) : option (nat * string) :=
  match k with
  | O => Some (acc, s)
  | S k' =>
      match s with
      | String c r => d ← digit_val c; num_acc k' (10 * acc + d)%nat r
      | EmptyString => None
      end
  end.

Definition num (k : nat) (s : string) : option (nat * string) := num_acc k 0%nat s.

Definition lit (c : ascii) (s : string) : option string :=
  match s with
  | String c' r => if decide (c = c') then Some r else None
  | EmptyString => None
  end.

(** A run of digits after the decimal point, scaled to nanoseconds;
    digits past the ninth are dropped. [w] is the weight of the next
    digit. *)
Fixpoint frac_digits (w : Z) (acc : Z) (s : string) : Z * string :=
  match s with
  | String c r =>
      match digit_val c with
      | Some d => frac_digits (w / 10) (acc + Z.of_nat d * w) r
      | None => (acc, s)
      end
  | EmptyString => (acc, s)
  end.

Definition frac (s : string) : option (Z * string) :=
  match s with
  | String "." (String c r) =>
      match digit_val c with
      | Some _ => Some (frac_digits 100000000 0 (String c r))
      | None => None
      end
  | _ => Some (0, s)
  end.

Definition parse_zone (s : string) : option Z :=
  match s with
  | String "Z" EmptyString => Some 0
  | String sg r =>
      sgn ← (if decide (sg = "+"%char) then Some 1
             else if decide (sg = "-"%char) then Some (-1) else None);
      '(hh, r) ← num 2 r;
      r ← lit ":" r;
      '(mm, r) ← num 2 r;
      match r with
      | EmptyString =>
          if ((hh <? 24) && (mm <? 60))%nat
          then Some (sgn * Z.of_nat (hh * 60 + mm))
          else None
      | _ => None
      end
  | EmptyString => None
  end.

Definition is_leap (y : nat) : bool :=
  ((y mod 4 =? 0) && (negb (y mod 100 =? 0) || (y mod 400 =? 0)))%nat.

Definition days_in (m y : nat) : nat :=
  match m with
  | 2 => if is_leap y then 29 else 28
  | 4 | 6 | 9 | 11 => 30
  | _ => 31
  end%nat.

Definition in_range (t : Time) : bool :=
  ((1 <=? month t) && (month t <=? 12)
     && (1 <=? day t) && (day t <=? days_in (month t) (year t))
     && (hour t <? 24) && (minute t <? 60) && (second t <? 60))%nat
  && (Z.of_nat (year t) <? 10000)
  && (0 <=? nsec t) && (nsec t <? 1000000000)
  && (Z.abs (offset t) <? 24 * 60).

(** [time.Parse(time.RFC3339, s)], as the strict grammar of RFC 3339
    with the range checks of the library; [None] is a parse error. *)
Definition Parse (s : string) : option Time :=
  '(y, s) ← num 4 s; s ← lit "-" s;
  '(mo, s) ← num 2 s; s ← lit "-" s;
  '(d, s) ← num 2 s; s ← lit "T" s;
  '(h, s) ← num 2 s; s ← lit ":" s;
  '(mi, s) ← num 2 s; s ← lit ":" s;
  '(sec, s) ← num 2 s;
  '(ns, s) ← frac s;
  off ← parse_zone s;
  let t := mkTime y mo d h mi sec ns off in
  if in_range t then Some t else None.

(** [t] to the precision of the layout: without its nanoseconds. *)
Definition to_second (t : Time) : Time :=
  mkTime (year t) (month t) (day t) (hour t) (minute t) (second t) 0 (offset t).

(** *** Instants *)

(** Days since 1970-01-01 of a civil date (proleptic Gregorian). *)
Definition days_from_civil (y m d : Z) : Z :=
  let y' := if m <=? 2 then y - 1 else y in
  let era := y' / 400 in
  let yoe := y' - era * 400 in
  let doy := (153 * (m + (if 2 <? m then -3 else 9)) + 2) / 5 + d - 1 in
  let doe := yoe * 365 + yoe / 4 - yoe / 100 + doy in
  era * 146097 + doe - 719468.

Definition unix (t : Time) : Z :=
  days_from_civil (Z.of_nat (year t)) (Z.of_nat (month t)) (Z.of_nat (day t)) * 86400
  + Z.of_nat (hour t) * 3600 + Z.of_nat (minute t) * 60 + Z.of_nat (second t)
  - offset t * 60.

Definition unix_nano (t : Time) : Z := unix t * 1000000000 + nsec t.

(** [t.After(u)] *)
Definition After (t u : Time) : bool := unix_nano u <? unix_nano t.

End time.

Definition TimeFmt : string := time.RFC3339.

(** ** Package [path/filepath] (Unix separator) *)

Module filepath.

Definition is_sep (c : ascii) : bool := bool_decide (c = "/"%char).

(** No separator occurs in [s]. *)
Fixpoint nosep (s : string) : bool :=
  match s with
  | EmptyString => true
  | String c r => negb (is_sep c) && nosep r
  end.

(** [filepath.Split]: the directory part, with its final separator, and
    the file part after the last separator. *)
Fixpoint Split (p : string) : string * string :=
  match p with
  | EmptyString => (EmptyString, EmptyString)
  | String c r =>
      let '(d, f) := Split r in
      match d with
      | EmptyString =>
          if is_sep c then (String c EmptyString, f) else (EmptyString, String c f)
      | _ => (String c d, f)
      end
  end.

(** The elements between separators. *)
Fixpoint fields (p : string) : list string :=
  match p with
  | EmptyString => [EmptyString]
  | String c r =>
      if is_sep c then EmptyString :: fields r
      else match fields r with
           | x :: xs => String c x :: xs
           | [] => [String c EmptyString]
           end
  end.

(** One element of the lexical clean-up; [st] is the stack of kept
    elements, innermost first. *)
Definition clean_step (rooted : bool) (st : list string) (e : string) : list string :=
  if decide (e = EmptyString) then st
  else if decide (e = ".") then st
  else if decide (e = "..") then
    match st with
    | top :: st' => if decide (top = "..") then e :: st else st'
    | [] => if rooted then [] else [e]
    end
  else e :: st.

Fixpoint join_sep (l : list string) : string :=
  match l with
  | [] => EmptyString
  | [x] => x
  | x :: l' => x +:+ "/" +:+ join_sep l'
  end.

(** [filepath.Clean] *)
Definition Clean (p : string) : string :=
  let rooted := match p with String c _ => is_sep c | EmptyString => false end in
  let kept := rev (foldl (clean_step rooted) [] (fields p)) in
  let body := join_sep kept in
  let out := if rooted then "/" +:+ body else body in
  match out with EmptyString => "." | _ => out end.

(** [filepath.Dir] *)
Definition Dir (p : string) : string := Clean (fst (Split p)).

Fixpoint trim_seps (s : string) : string :=
  match s with
  | EmptyString => EmptyString
  | String c r =>
      match trim_seps r with
      | EmptyString => if is_sep c then EmptyString else String c EmptyString
      | r' => String c r'
      end
  end.

(** [filepath.Base] *)
Definition Base (p : string) : string :=
  match p with
  | EmptyString => "."
  | _ => match snd (Split (trim_seps p)) with
         | EmptyString => "/"
         | b => b
         end
  end.

(** [filepath.Join] of two elements; empty elements are ignored. *)
Definition Join (a b : string) : string :=
  match a, b with
  | EmptyString, EmptyString => EmptyString
  | EmptyString, _ => Clean b
  | _, EmptyString => Clean a
  | _, _ => Clean (a +:+ "/" +:+ b)
  end.

End filepath.

(** ** The operating system seen by the writer

    The store maps paths to nodes. A descriptor remembers the path it was
    opened at and writes reach the file at that path; the writer never
    renames a file it still holds a handle on (it closes first), so this
    agrees with descriptors that follow the file. Every fallible call
    consults the environment's script of injected failures before it
    looks at the store, which lets a call fail for reasons the store does
    not show (permissions, a full disk, a short write). *)

(** Error values. [ErrInvalid] and [ErrClosed] are the two errors package
    [os] reports itself, for a nil and for a closed [*File]. *)
Inductive Errno :=
  | ENOENT | EACCES | EEXIST | EISDIR | ENOTDIR | ENOTEMPTY | EIO | ENOSPC
  | EOF | ErrInvalid | ErrClosed.

#[global] Instance Errno_eq_dec : EqDecision Errno.
Proof. solve_decision. Defined.

(** A Go [error]; [None] is [nil]. *)
Definition error : Type := option Errno.

(** [os.IsNotExist] *)
Definition IsNotExist (err : error) : bool := bool_decide (err = Some ENOENT).

(** What a path names: a regular file with its bytes and permission bits,
    or a directory. *)
Inductive Node :=
  | NFile (data : list byte) (mode : Z)
  | NDir.

(** [os.FileInfo] *)
Record FileInfo := mkInfo {
  Name : string;
  Size : Z;
  Mode : Z;
  IsDir : bool
}.

(** A non-nil [*os.File]: a descriptor and the path it was opened at. *)
Record OsFile := mkFile { fd : nat; fname : string }.

#[global] Instance OsFile_eq_dec : EqDecision OsFile.
Proof. solve_decision. Defined.

(** An injected failure of one system call: the error, and for a write
    the number of bytes that got through before it. *)
Record Fault := mkFault { f_err : Errno; f_done : nat }.

(** The world outside the writer. [faults] is the environment's script:
    every fallible call takes its next entry, [None] (or an exhausted
    script) meaning that nothing goes wrong beyond what the store itself
    dictates. [renames] is the history of completed renames, oldest
    first; it is never read by the program. *)
Record World := mkWorld {
  files : gmap string Node;
  opened : list OsFile;
  next_fd : nat;
  clock : time.Time;
  faults : list (option Fault);
  renames : list (string * string)
}.

Definition set_files (m : gmap string Node) (x : World) : World :=
  mkWorld m (opened x) (next_fd x) (clock x) (faults x) (renames x).
Definition set_opened (l : list OsFile) (x : World) : World :=
  mkWorld (files x) l (next_fd x) (clock x) (faults x) (renames x).
Definition set_clock (t : time.Time) (x : World) : World :=
  mkWorld (files x) (opened x) (next_fd x) t (faults x) (renames x).
Definition set_faults (l : list (option Fault)) (x : World) : World :=
  mkWorld (files x) (opened x) (next_fd x) (clock x) l (renames x).

(** Permission bits of a file made by [os.Create] (0666 under umask 022). *)
Definition create_mode : Z := 420.

Definition info_of (path : string) (n : Node) : FileInfo :=
  match n with
  | NFile data mode => mkInfo (filepath.Base path) (Z.of_nat (length data)) mode false
  | NDir => mkInfo (filepath.Base path) 0 493 true
  end.

Module sys.

(** A system call: a function of the world. *)
Definition call (A : Type) : Type := World → A * World.

Definition next_fault : call (option Fault) := λ x,
  match faults x with
  | [] => (None, x)
  | f :: rest => (f, set_faults rest x)
  end.

(** A fresh descriptor for [path]. *)
Definition alloc (path : string) : call OsFile := λ x,
  let f := mkFile (next_fd x) path in
  (f, mkWorld (files x) (f :: opened x) (S (next_fd x)) (clock x) (faults x) (renames x)).

Definition is_dir (x : World) (path : string) : bool :=
  match files x !! path with Some NDir => true | _ => false end.

Definition is_open (x : World) (f : OsFile) : bool := bool_decide (f ∈ opened x).

(** The paths directly inside [dir]. *)
Definition children (x : World) (dir : string) : list (string * Node) :=
  filter (λ e, e.1 ≠ dir ∧ filepath.Dir e.1 = dir) (map_to_list (files x)).

(** Moving the subtree under [old] to [new]. *)
Definition rekey (old new : string) (e : string * Node) : string * Node :=
  if decide (e.1 = old) then (new, e.2)
  else if String.prefix (old +:+ "/") e.1
       then (new +:+ substring (String.length old)
                               (String.length e.1 - String.length old) e.1, e.2)
       else e.

End sys.

Module os.
Import sys.

(** [os.Stat(path)] *)
Definition Stat (path : string) : call (FileInfo + Errno) := λ x,
  let '(flt, x) := next_fault x in
  match flt with
  | Some f => (inr (f_err f), x)
  | None =>
      match files x !! path with
      | Some n => (inl (info_of path n), x)
      | None => (inr ENOENT, x)
      end
  end.

(** [os.Create(path)]: create or truncate, open for writing. *)
Definition Create (path : string) : call (option OsFile * error) := λ x,
  let '(flt, x) := next_fault x in
  match flt with
  | Some f => (None, Some (f_err f), x)
  | None =>
      if negb (is_dir x (filepath.Dir path)) then (None, Some ENOENT, x)
      else match files x !! path with
           | Some NDir => (None, Some EISDIR, x)
           | Some (NFile _ mode) =>
               let '(f, x) := alloc path (set_files (<[path := NFile [] mode]> (files x)) x) in
               (Some f, None, x)
           | None =>
               let '(f, x) := alloc path (set_files (<[path := NFile [] create_mode]> (files x)) x) in
               (Some f, None, x)
           end
  end.

(** [os.OpenFile(path, os.O_APPEND|os.O_WRONLY, 0644)] *)
Definition OpenFile_append (path : string) : call (option OsFile * error) := λ x,
  let '(flt, x) := next_fault x in
  match flt with
  | Some f => (None, Some (f_err f), x)
  | None =>
      match files x !! path with
      | Some NDir => (None, Some EISDIR, x)
      | Some (NFile _ _) => let '(f, x) := alloc path x in (Some f, None, x)
      | None => (None, Some ENOENT, x)
      end
  end.

(** [os.Open(path)], for reading. *)
Definition Open (path : string) : call (option OsFile * error) := λ x,
  let '(flt, x) := next_fault x in
  match flt with
  | Some f => (None, Some (f_err f), x)
  | None =>
      match files x !! path with
      | Some _ => let '(f, x) := alloc path x in (Some f, None, x)
      | None => (None, Some ENOENT, x)
      end
  end.

(** [f.Write(out)] on a handle that appends: every write of the writer
    lands at the end of the file. A nil receiver is answered with
    [ErrInvalid], a closed one with [ErrClosed]. *)
Definition Write (f : option OsFile) (out : list byte) : call (Z * error) := λ x,
  match f with
  | None => (0, Some ErrInvalid, x)
  | Some h =>
      if negb (is_open x h) then (0, Some ErrClosed, x)
      else
        let '(flt, x) := next_fault x in
        let sent := match flt with
                    | Some ft => take (f_done ft) out
                    | None => out
                    end in
        let err := f_err <$> flt in
        match files x !! fname h with
        | Some (NFile data mode) =>
            (Z.of_nat (length sent), err,
             set_files (<[fname h := NFile (data ++ sent) mode]> (files x)) x)
        | _ => (Z.of_nat (length sent), err, x)
        end
  end.

(** [f.Close()]; the descriptor is released even when the call reports
    an error. *)
Definition Close (f : option OsFile) : call error := λ x,
  match f with
  | None => (Some ErrInvalid, x)
  | Some h =>
      if negb (is_open x h) then (Some ErrClosed, x)
      else
        let x := set_opened (filter (λ g, g ≠ h) (opened x)) x in
        let '(flt, x) := next_fault x in
        (f_err <$> flt, x)
  end.

(** [f.Stat()] *)
Definition FStat (f : option OsFile) : call (FileInfo + Errno) := λ x,
  match f with
  | None => (inr ErrInvalid, x)
  | Some h =>
      if negb (is_open x h) then (inr ErrClosed, x)
      else
        let '(flt, x) := next_fault x in
        match flt with
        | Some ft => (inr (f_err ft), x)
        | None =>
            match files x !! fname h with
            | Some n => (inl (info_of (fname h) n), x)
            | None => (inr ENOENT, x)
            end
        end
  end.

(** [os.Rename(old, new)] *)
Definition Rename (old new : string) : call error := λ x,
  let '(flt, x) := next_fault x in
  match flt with
  | Some f => (Some (f_err f), x)
  | None =>
      match files x !! old with
      | None => (Some ENOENT, x)
      | Some n =>
          let moved :=
            (None, mkWorld (match n with
                            | NFile _ _ => <[new := n]> (delete old (files x))
                            | NDir => list_to_map (rekey old new <$> map_to_list (files x))
                            end)
                           (opened x) (next_fd x) (clock x) (faults x)
                           (renames x ++ [(old, new)])) in
          if negb (is_dir x (filepath.Dir new)) then (Some ENOENT, x)
          else match n, files x !! new with
               | NFile _ _, Some NDir => (Some EISDIR, x)
               | NDir, Some (NFile _ _) => (Some ENOTDIR, x)
               | NDir, Some NDir =>
                   match children x new with
                   | [] => moved
                   | _ => (Some ENOTEMPTY, x)
                   end
               | _, _ => moved
               end
      end
  end.

(** [os.Remove(path)] *)
Definition Remove (path : string) : call error := λ x,
  let '(flt, x) := next_fault x in
  match flt with
  | Some f => (Some (f_err f), x)
  | None =>
      match files x !! path with
      | None => (Some ENOENT, x)
      | Some (NFile _ _) => (None, set_files (delete path (files x)) x)
      | Some NDir =>
          match children x path with
          | [] => (None, set_files (delete path (files x)) x)
          | _ => (Some ENOTEMPTY, x)
          end
      end
  end.

End os.

Module ioutil.
Import sys.

Definition name_le (a b : FileInfo) : Prop := String.leb (Name a) (Name b) = true.

#[global] Instance name_le_dec a b : Decision (name_le a b).
Proof. unfold name_le. apply _. Defined.

(** The entries of the directory [dir], sorted by file name. *)
Definition listing (x : World) (dir : string) : list FileInfo :=
  merge_sort name_le ((λ e, info_of e.1 e.2) <$> children x dir).

(** [ioutil.ReadDir(dir)] *)
Definition ReadDir (dir : string) : call (list FileInfo + Errno) := λ x,
  let '(flt, x) := next_fault x in
  match flt with
  | Some f => (inr (f_err f), x)
  | None =>
      match files x !! dir with
      | None => (inr ENOENT, x)
      | Some (NFile _ _) => (inr ENOTDIR, x)
      | Some NDir => (inl (listing x dir), x)
      end
  end.

(** [ioutil.WriteFile(path, data, perm)]: create or truncate, write,
    close; [perm] only matters when the file is created. *)
Definition WriteFile (path : string) (data : list byte) (perm : Z) : call error := λ x,
  let '(flt, x) := next_fault x in
  match flt with
  | Some f => (Some (f_err f), x)
  | None =>
      if negb (is_dir x (filepath.Dir path)) then (Some ENOENT, x)
      else match files x !! path with
           | Some NDir => (Some EISDIR, x)
           | Some (NFile _ mode) => (None, set_files (<[path := NFile data mode]> (files x)) x)
           | None => (None, set_files (<[path := NFile data perm]> (files x)) x)
           end
  end.

End ioutil.

Module bufio.
Import sys.

(** [bufio.NewReader(f).Read(p)] with [len(p) = n] on a reader that has
    nothing buffered yet: no call at all for an empty [p], one read of
    the file otherwise. The result is the buffer [p] after the call
    (bytes not read stay zero) and the error. *)
Definition Read (f : OsFile) (n : nat) : call (list byte * error) := λ x,
  match n with
  | O => ([], None, x)
  | _ =>
      if negb (is_open x f) then (replicate n x00, Some ErrClosed, x)
      else
        let '(flt, x) := next_fault x in
        match flt with
        | Some ft => (replicate n x00, Some (f_err ft), x)
        | None =>
            match files x !! fname f with
            | Some (NFile data _) =>
                match data with
                | [] => (replicate n x00, Some EOF, x)
                | _ => (take n data ++ replicate (n - length data) x00, None, x)
                end
            | Some NDir => (replicate n x00, Some EISDIR, x)
            | None => (replicate n x00, Some EOF, x)
            end
        end
  end.

End bufio.

(** ** Package [compress/gzip]

    The codec is a collaborator: the writer only hands it the bytes of an
    archive. What the development needs from it is that decompression
    undoes compression. *)
Class Gzip := {
  gzip : list byte → list byte;
  gunzip : list byte → option (list byte);
  gunzip_gzip : ∀ b, gunzip (gzip b) = Some b
}.

(** ** Results and the method monad *)

Inductive Res (A : Type) :=
  | Val (a : A)
  | Panic (msg : string).
Arguments Val {A} a.
Arguments Panic {A} msg.

(** [RotateWriter] is the (compressed) rotated log writer. *)
Record RotateWriter := mkWriter {
  filename : string;
  MaxSize : Z;
  MaxFiles : Z;
  Compress : bool;
  fp : option OsFile;
  fsize : Z
}.

Definition set_fp (f : option OsFile) (w : RotateWriter) : RotateWriter :=
  mkWriter (filename w) (MaxSize w) (MaxFiles w) (Compress w) f (fsize w).
Definition set_fsize (n : Z) (w : RotateWriter) : RotateWriter :=
  mkWriter (filename w) (MaxSize w) (MaxFiles w) (Compress w) (fp w) n.

(** The receiver [w] and the world it runs in. *)
Record St := mkSt { obj : RotateWriter; env : World }.

(** A method body: it reads and updates the receiver and the world and
    either yields a value or panics. *)
Definition M (A : Type) : Type := St → Res A * St.

#[global] Instance M_ret : MRet M := λ A a s, (Val a, s).
#[global] Instance M_bind : MBind M := λ A B k m s,
  match m s with
  | (Val a, s') => k a s'
  | (Panic msg, s') => (Panic msg, s')
  end.

Definition panic {A} (msg : string) : M A := λ s, (Panic msg, s).

(** A system call made from a method. *)
Definition syscall {A} (c : sys.call A) : M A := λ s,
  let '(a, x) := c (env s) in (Val a, mkSt (obj s) x).

(** Reading and assigning the fields of [w]. *)
Definition load {A} (f : RotateWriter → A) : M A := λ s, (Val (f (obj s)), s).
Definition assign (f : RotateWriter → RotateWriter) : M unit := λ s,
  (Val tt, mkSt (f (obj s)) (env s)).

(** [defer d] around a body: [d] runs when the body is left, by return
    or by panic. *)
Definition defer {A} (d : M unit) (body : M A) : M A := λ s,
  let '(r, s) := body s in
  let '(_, s) := d s in
  (r, s).

(** [go m]: the spawned call is run on the spot; its result is dropped. *)
Definition go {A} (m : M A) : M unit := λ s,
  let '(_, s) := m s in (Val tt, s).

(** [for _, x := range l { body x }] *)
Fixpoint range {A} (l : list A) (body : A → M unit) : M unit :=
  match l with
  | [] => mret tt
  | x :: l' => body x ;; range l' body
  end.

(** [time.Now()] *)
Definition Now : M time.Time := λ s, (Val (clock (env s)), s).

(** ** The writer *)

(** [fragInfo] is a log fragment with file info. *)
Record fragInfo := mkFrag { t : time.Time; info : FileInfo }.

(** [byTime.Less]: sorts on the time field, in descending order. *)
Definition Less (a b : fragInfo) : bool := time.After (t a) (t b).

(** The order [sort.Sort(byTime(frags))] establishes: no element is
    [Less] than one placed before it. *)
Definition byTime (a b : fragInfo) : Prop := Less b a = false.

#[global] Instance byTime_dec a b : Decision (byTime a b).
Proof. unfold byTime. apply _. Defined.

(** The loop of [drain] that collects the log fragments, [frags] being
    the slice built so far. *)
Fixpoint collect (filename : string) (files : list FileInfo) (frags : list fragInfo)
  : Res (list fragInfo) :=
  match files with
  | [] => Val frags
  | f :: rest =>
      if IsDir f then collect filename rest frags
      else if decide (Name f = filename) then collect filename rest frags
      else
        let base := filepath.Base filename in
        let file := Name f in
        match slice file (String.length base + 1)
                         (String.length base + 1 + String.length TimeFmt) with
        | None => Panic "slice bounds out of range"
        | Some ts =>
            match time.Parse ts with
            | Some tm => collect filename rest (frags ++ [mkFrag tm f])
            | None => collect filename rest frags
            end
        end
  end.

Section Writer.
Context `{Gzip}.

(** [open] opens or creates the log file. *)
Definition open : M error :=
  name ← load filename;
  st ← syscall (os.Stat name);
  let err := match st with inl _ => None | inr e => Some e end in
  if IsNotExist err then
    '(f, err) ← syscall (os.Create name);
    assign (set_fp f);;
    assign (set_fsize 0);;
    mret err
  else
    '(f, err) ← syscall (os.OpenFile_append name);
    assign (set_fp f);;
    match err with
    | Some e => mret (Some e)
    | None =>
        match st with
        | inl info => assign (set_fsize (Size info));; mret None
        | inr _ => panic "invalid memory address or nil pointer dereference"
        end
    end.

(** [Open] opens the log file if it exists. Creates a new file
    otherwise. *)
Definition Open : M error := open.

(** [write] actually writes to the log. *)
Definition write (out : list byte) : M (Z * error) :=
  f ← load fp;
  '(n, err) ← syscall (os.Write f out);
  sz ← load fsize;
  assign (set_fsize (wrap64 (sz + n)));;
  mret (n, err).

(** [close] actually closes the writer. *)
Definition close : M error :=
  f ← load fp;
  match f with
  | None => mret None
  | Some _ =>
      assign (set_fp None);;
      f ← load fp;
      syscall (os.Close f)
  end.

(** [Close] satisfies the [io.Closer] interface. *)
Definition Close : M error := close.

(** [compress] compresses a file with the gzip algorithm. *)
Definition compress (source : string) : M error :=
  '(rawfile, err) ← syscall (os.Open source);
  match rawfile, err with
  | Some rawfile, None =>
      defer (syscall (os.Close (Some rawfile));; mret tt)
        (st ← syscall (os.FStat (Some rawfile));
         match st with
         | inr _ => panic "invalid memory address or nil pointer dereference"
         | inl info =>
             '(rawbytes, err) ← syscall (bufio.Read rawfile (Z.to_nat (Size info)));
             match err with
             | Some e => mret (Some e)
             | None =>
                 err ← syscall (ioutil.WriteFile (source +:+ ".gz") (gzip rawbytes) (Mode info));
                 match err with
                 | Some e => mret (Some e)
                 | None => go (syscall (os.Remove source));; mret None
                 end
             end
         end)
  | _, Some e => mret (Some e)
  | None, None => mret None
  end.

(** [drain] cleans old and archived files. *)
Definition drain : M unit :=
  maxFiles ← load MaxFiles;
  if bool_decide (maxFiles = MaxInt) then mret tt
  else
    name ← load filename;
    r ← syscall (ioutil.ReadDir (filepath.Dir name));
    match r with
    | inr _ => mret tt
    | inl files =>
        match collect name files [] with
        | Panic msg => panic msg
        | Val frags =>
            let frags := merge_sort byTime frags in
            if maxFiles <? Z.of_nat (length frags) then
              if maxFiles <? 0 then panic "slice bounds out of range"
              else
                let deletes := drop (Z.to_nat maxFiles) frags in
                go (range deletes (λ f,
                      syscall (os.Remove (filepath.Join (filepath.Dir name) (Name (info f))));;
                      mret tt))
            else go (range [] (λ f : fragInfo, mret tt))
        end
    end.

(** [rotate] actually rotates the log file. *)
Definition rotate : M error :=
  f ← load fp;
  err ← match f with
        | Some _ =>
            err ← syscall (os.Close f);
            assign (set_fp None);;
            mret err
        | None => mret None
        end;
  match err with
  | Some e => mret (Some e)
  | None =>
      name ← load filename;
      st ← syscall (os.Stat name);
      err ← match st with
            | inl _ =>
                now ← Now;
                let rot := name +:+ "." +:+ time.Format now in
                err ← syscall (os.Rename name rot);
                match err with
                | Some e => mret (Some e)
                | None =>
                    c ← load Compress;
                    if c : bool then compress rot else mret None
                end
            | inr _ => mret None
            end;
      match err with
      | Some e => mret (Some e)
      | None => drain;; open
      end
  end.

(** [Rotate] performs the rotation and creation of files. *)
Definition Rotate : M error := rotate.

(** [Write] satisfies the [io.Writer] interface. *)
Definition Write (out : list byte) : M (Z * error) :=
  f ← load fp;
  match f with
  | None => open;; mret tt
  | Some _ => mret tt
  end;;
  sz ← load fsize;
  maxSize ← load MaxSize;
  (if maxSize <? wrap64 (sz + Z.of_nat (length out))
   then rotate;; mret tt
   else mret tt);;
  write out.

(** [NewRotateWriter] creates a new [RotateWriter]; the result is
    [None] ([nil]) if an error occurs during setup. *)
Definition NewRotateWriter (filename : string) (x : World)
  : Res (option RotateWriter) * World :=
  let w := mkWriter filename DefaultMaxSize DefaultMaxFiles true None 0 in
  match Open (mkSt w x) with
  | (Val None, s) => (Val (Some (obj s)), env s)
  | (Val (Some _), s) => (Val None, env s)
  | (Panic msg, s) => (Panic msg, env s)
  end.

End Writer.

(** ** Runs of a writer, and what is on disk after them *)

(** A call made by the owner of the writer. *)
Inductive Op :=
  | OpWrite (out : list byte)
  | OpRotate.

(** What the call returned. *)
Inductive Ret :=
  | RetWrite (n : Z) (err : error)
  | RetRotate (err : error).

(** The clock reads [now] while the next call runs. *)
Definition tick (now : time.Time) : M unit := λ s,
  (Val tt, mkSt (obj s) (set_clock now (env s))).

Section Runs.
Context `{Gzip}.

Definition step (c : time.Time * Op) : M Ret :=
  tick c.1;;
  match c.2 with
  | OpWrite out => '(n, err) ← Write out; mret (RetWrite n err)
  | OpRotate => err ← Rotate; mret (RetRotate err)
  end.

Fixpoint run (cs : list (time.Time * Op)) : M (list Ret) :=
  match cs with
  | [] => mret []
  | c :: cs' => r ← step c; rs ← run cs'; mret (r :: rs)
  end.

(** The bytes of an archive made by renaming the log to [rot]: those of
    [rot.gz], decompressed, when it exists, those of [rot] otherwise. *)
Definition read_archive (x : World) (rot : string) : option (list byte) :=
  match files x !! (rot +:+ ".gz") with
  | Some (NFile d _) => gunzip d
  | _ => match files x !! rot with
         | Some (NFile d _) => Some d
         | _ => None
         end
  end.

End Runs.

(** The bytes of the regular file at [path]; nothing when there is none. *)
Definition content (x : World) (path : string) : list byte :=
  match files x !! path with
  | Some (NFile d _) => d
  | _ => []
  end.

(** The archives in the order they were made, then the live file. [None]
    when an archive is gone or does not decompress. *)
Definition stored `{Gzip} (name : string) (x : World) : option (list byte) :=
  chunks ← mapM (read_archive x) (snd <$> renames x);
  Some (concat chunks ++ content x name).


(** [rot] is a name rotation gives an archive of [name]. *)
Definition archive_of (name rot : string) : Prop :=
  ∃ now, rot = name +:+ "." +:+ time.Format now.

(** The store keeps [data] as the log [name] and its archives: nothing
    fails, the log's directory is there, the log is no directory, every
    rename recorded went to an archive name, every path that continues
    [name] with a dot is a regular file and such an archive, plain or
    compressed, and the archives and the log read back as [data]. *)
Definition kept `{Gzip} (name : string) (data : list byte) (x : World) : Prop :=
  faults x = []
  ∧ sys.is_dir x (filepath.Dir name) = true
  ∧ files x !! name ≠ Some NDir
  ∧ Forall (archive_of name) (snd <$> renames x)
  ∧ (∀ sfx n, files x !! (name +:+ "." +:+ sfx) = Some n →
       (∃ d m, n = NFile d m)
       ∧ ∃ rot, rot ∈ snd <$> renames x
                ∧ (name +:+ "." +:+ sfx = rot ∨ name +:+ "." +:+ sfx = rot +:+ ".gz"))
  ∧ stored name x = Some data.



(** Every path of the store is written the way [filepath] rebuilds it
    from its directory and its name. *)
Definition canonical (x : World) : Prop :=
  map_Forall (λ p _, filepath.Join (filepath.Dir p) (filepath.Base p) = p) (files x).

(** The width of the timestamp the sweep cuts out of an entry name. *)
Definition stamp_lo (name : string) : nat := (String.length (filepath.Base name) + 1)%nat.
Definition stamp_hi (name : string) : nat :=
  (String.length (filepath.Base name) + 1 + String.length TimeFmt)%nat.

(** What one round of the collecting loop makes of an entry that is long
    enough to be sliced: a fragment when the entry is a file other than
    [name] whose slice parses, nothing otherwise. *)
Definition recognize (name : string) (f : FileInfo) : option fragInfo :=
  if IsDir f then None
  else if decide (Name f = name) then None
  else ts ← slice (Name f) (stamp_lo name) (stamp_hi name);
       tm ← time.Parse ts;
       Some (mkFrag tm f).

(** The entries the loop gets past without a fault: directories, the
    entry equal to [name], and names at least as long as the slice. *)
Definition sliceable (name : string) (f : FileInfo) : Prop :=
  IsDir f = false → Name f ≠ name → (stamp_hi name ≤ String.length (Name f))%nat.


#[global] Instance sliceable_dec name f : Decision (sliceable name f).
Proof. unfold sliceable. apply _. Defined.

#[global] Instance canonical_dec x : Decision (canonical x).
Proof. unfold canonical. apply _. Defined.

(** The path [drain] removes for a directory entry. *)
Definition sibling (name : string) (f : FileInfo) : string :=
  filepath.Join (filepath.Dir name) (Name f).

(** ** Invariants of a writer and its files *)

(** The size counter tracks the log: a handle the writer holds is an open
    descriptor of the configured path, which names a regular file whose
    length is the counter. *)
Definition tracked (s : St) : Prop :=
  ∀ h, fp (obj s) = Some h →
    h ∈ opened (env s) ∧ fname h = filename (obj s)
    ∧ ∃ d m, files (env s) !! filename (obj s) = Some (NFile d m)
             ∧ fsize (obj s) = Z.of_nat (length d).

(** A writer with unbounded retention whose handle, if it holds one, was
    opened at the configured path, which is not a directory. *)
Definition settled (s : St) : Prop :=
  MaxFiles (obj s) = MaxInt
  ∧ (∀ h, fp (obj s) = Some h → fname h = filename (obj s))
  ∧ files (env s) !! filename (obj s) ≠ Some NDir.

(** [p] is neither the log [name] nor the name of an archive of it,
    plain or compressed. *)
Definition foreign (name p : string) : Prop :=
  p ≠ name
  ∧ ∀ now, p ≠ name +:+ "." +:+ time.Format now
           ∧ p ≠ (name +:+ "." +:+ time.Format now) +:+ ".gz".

(** ** A codec and a test bed for concrete runs *)

(** A codec that stores the bytes behind the two magic bytes of gzip. *)
Definition store_gzip (b : list byte) : list byte := x1f :: x8b :: b.
Definition store_gunzip (b : list byte) : option (list byte) :=
  match b with
  | x1f :: x8b :: r => Some r
  | _ => None
  end.

#[global] Instance store_codec : Gzip :=
  {| gzip := store_gzip; gunzip := store_gunzip; gunzip_gzip := λ b, eq_refl |}.

(** The test file's fixtures: [logDir], [filename], [logFile]. *)
Definition logDir : string := "crt".
Definition logName : string := "comrot.log".
Definition logFile : string := filepath.Join logDir logName.

(** Instants one second apart in a zone one hour east of UTC, and the
    same wall-clock reading in UTC. *)
Definition cet (sec : nat) : time.Time := time.mkTime 2015 1 1 12 0 sec 0 60.
Definition utc (sec : nat) : time.Time := time.mkTime 2015 1 1 12 0 sec 0 0.

(** [setup()]: the log directory exists and is empty. *)
Definition fresh_world (now : time.Time) : World :=
  mkWorld {[ logDir := NDir ]} [] 3 now [] [].

(** A writer value as the tests build it, not yet opened. *)
Definition test_writer (maxSize maxFiles : Z) (compress : bool) : RotateWriter :=
  mkWriter logFile maxSize maxFiles compress None 0.

Definition bytes (s : string) : list byte := list_byte_of_string s.

(** Four one-letter writes with a rotation after each of the first
    three, one second apart. *)
Definition retention_run : list (time.Time * Op) :=
  [ (cet 0, OpWrite (bytes "a")); (cet 0, OpRotate);
    (cet 1, OpWrite (bytes "b")); (cet 1, OpRotate);
    (cet 2, OpWrite (bytes "c")); (cet 2, OpRotate);
    (cet 3, OpWrite (bytes "d")) ].


(** The name rotation gives the archive made at second [sec]. *)
Definition archive_name (sec : nat) : string := logFile +:+ "." +:+ time.Format (cet sec).

(** The log directory after three rotations, one second apart, of logs
    holding one letter each; the live log is away, as it is while the
    sweep runs. *)
Definition three_archives : World :=
  set_files {[ logDir := NDir;
               archive_name 0 := NFile (bytes "a") 420;
               archive_name 1 := NFile (bytes "b") 420;
               archive_name 2 := NFile (bytes "c") 420 ]}
            (fresh_world (cet 3)).

(** * Properties *)

(** ** Sanity checks of the collaborators *)

Example TimeFmt_len : String.length TimeFmt = 25%nat.
Proof. reflexivity. Qed.

Example Format_utc :
  time.Format (time.mkTime 2015 1 1 0 0 0 0 0) = "2015-01-01T00:00:00Z".
Proof. reflexivity. Qed.

Example Format_cet :
  time.Format (time.mkTime 2015 1 1 0 0 0 7 60) = "2015-01-01T00:00:00+01:00".
Proof. reflexivity. Qed.

Example Parse_cet :
  time.Parse "2015-01-01T00:00:00+01:00" = Some (time.mkTime 2015 1 1 0 0 0 0 60).
Proof. vm_compute. reflexivity. Qed.

Example Parse_frac :
  time.Parse "2015-01-01T00:00:00.1234Z" = Some (time.mkTime 2015 1 1 0 0 0 123400000 0).
Proof. vm_compute. reflexivity. Qed.

Example unix_epoch : time.unix (time.mkTime 1970 1 1 1 0 0 0 60) = 0.
Proof. reflexivity. Qed.

Example Dir_rel : filepath.Dir "crt/comrot.log" = "crt".
Proof. vm_compute. reflexivity. Qed.
Example Dir_plain : filepath.Dir "comrot.log" = ".".
Proof. vm_compute. reflexivity. Qed.
Example Dir_root : filepath.Dir "/comrot.log" = "/".
Proof. vm_compute. reflexivity. Qed.
Example Dir_dots : filepath.Dir "a/../b/./c.log" = "b".
Proof. vm_compute. reflexivity. Qed.
Example Base_rel : filepath.Base "crt/comrot.log" = "comrot.log".
Proof. vm_compute. reflexivity. Qed.
Example Base_trail : filepath.Base "crt/logs///" = "logs".
Proof. vm_compute. reflexivity. Qed.
Example Join_rel : filepath.Join "crt" "comrot.log" = "crt/comrot.log".
Proof. vm_compute. reflexivity. Qed.
Example Join_dot : filepath.Join "." "comrot.log" = "comrot.log".
Proof. vm_compute. reflexivity. Qed.
Example Join_root : filepath.Join "/" "comrot.log" = "/comrot.log".
Proof. vm_compute. reflexivity. Qed.

Example logFile_path : logFile = "crt/comrot.log".
Proof. vm_compute. reflexivity. Qed.

(** The two tests of the repository that rotate, run in a zone east of
    UTC: one archive beside the live file, compressed or not. *)
Example TestRotate_cet :
  ∃ s, (Open;; Write (bytes "Text that clearly exceeds the MaxSize of 10 Bytes.");;
        Write (bytes "Some more bytes."))
         (mkSt (test_writer 56 10 false) (fresh_world (cet 0))) = (Val (16, None), s)
       ∧ length (sys.children (env s) logDir) = 2%nat.
Proof. eexists. split; [vm_compute; reflexivity | vm_compute; reflexivity]. Qed.

Example TestCompress_cet :
  ∃ s, (Open;; Write (bytes "Text that clearly exceeds the MaxSize of 10 Bytes.");;
        Write (bytes "Some more bytes."))
         (mkSt (test_writer 56 10 true) (fresh_world (cet 0))) = (Val (16, None), s)
       ∧ Name <$> filter (λ f, String.prefix ".gz" (substring (String.length (Name f) - 3) 3 (Name f)) = true)
                    ((λ e, info_of e.1 e.2) <$> sys.children (env s) logDir)
         = ["comrot.log.2015-01-01T12:00:00+01:00.gz"].
Proof. eexists. split; [vm_compute; reflexivity | vm_compute; reflexivity]. Qed.

(** ** Close *)

(** Closing a writer that holds no handle changes nothing and reports no
    error. *)
Lemma Close_closed `{Gzip} (w : RotateWriter) (x : World) :
  fp w = None → Close (mkSt w x) = (Val None, mkSt w x).
Proof. intros Hfp. unfold Close, close, load, mbind, M_bind. simpl. rewrite Hfp. reflexivity. Qed.

(** Closing a writer that holds a handle forgets the handle first and then
    closes the field it has just cleared: the call on the nil file is
    answered with [ErrInvalid], and the world, with its table of open
    descriptors, is left as it was. *)
Lemma Close_open `{Gzip} (w : RotateWriter) (x : World) (h : OsFile) :
  fp w = Some h → Close (mkSt w x) = (Val (Some ErrInvalid), mkSt (set_fp None w) x).
Proof. intros Hfp. unfold Close, close, load, mbind, M_bind. simpl. rewrite Hfp. reflexivity. Qed.

(** C6 (second half fails on the code). A writer opened on an empty log
    directory and then closed: [Close] returns the error [ErrInvalid]
    instead of nil, the writer forgets its handle, and the descriptor it
    held is still open in the operating system. Closing once more is the
    no-op the claim describes. *)
Theorem Close_keeps_descriptor_open :
  ∃ s1 h,
    Open (mkSt (test_writer 56 10 false) (fresh_world (cet 0))) = (Val None, s1)
    ∧ fp (obj s1) = Some h
    ∧ Close s1 = (Val (Some ErrInvalid), mkSt (set_fp None (obj s1)) (env s1))
    ∧ sys.is_open (env (Close s1).2) h = true
    ∧ Close (Close s1).2 = (Val None, (Close s1).2).
Proof.
  eexists. eexists. split; [vm_compute; reflexivity |].
  split; [reflexivity |].
  split; [apply (Close_open _ _ (mkFile 3 logFile)); reflexivity |].
  split; [vm_compute; reflexivity |].
  apply Close_closed. reflexivity.
Qed.

(** ** Open *)

(** C9 (fails on the code). [Open] on a writer that already holds a
    handle opens the file again and overwrites the field: after
    [NewRotateWriter] and one more [Open] two descriptors are open for
    the path, and the writer refers to the newer one only. *)
Theorem Open_twice_leaks_descriptor :
  ∃ w x s,
    NewRotateWriter logFile (fresh_world (cet 0)) = (Val (Some w), x)
    ∧ fp w = Some (mkFile 3 logFile)
    ∧ Open (mkSt w x) = (Val None, s)
    ∧ fp (obj s) = Some (mkFile 4 logFile)
    ∧ filter (λ f, fname f = logFile) (opened (env s)) = [mkFile 4 logFile; mkFile 3 logFile].
Proof.
  do 3 eexists. split; [vm_compute; reflexivity |].
  split; [reflexivity |].
  split; [vm_compute; reflexivity |].
  split; vm_compute; reflexivity.
Qed.

(** ** Errors inside Write *)

(** C7 (fails on the code). [Write] drops the errors of the [open] and
    the [rotate] it performs.
    - With the log directory missing, [open] fails with [ENOENT]; [Write]
      goes on to write through the nil handle and hands back
      [ErrInvalid].
    - When [os.Create] fails once and the threshold forces a rotation,
      the rotation reopens the file and [Write] reports success: the
      failure never reaches the caller.
    - When the rename of a threshold rotation fails, [rotate] returns
      that error, and [Write] again answers with [ErrInvalid] from the
      nil handle. *)
Theorem Write_drops_open_and_rotate_errors :
  let missing := mkSt (mkWriter "nodir/comrot.log" DefaultMaxSize DefaultMaxFiles true None 0)
                      (fresh_world (cet 0)) in
  let flaky := mkSt (test_writer 0 MaxInt false)
                    (set_faults [None; Some (mkFault EACCES 0)] (fresh_world (cet 0))) in
  let opened_ := (Open (mkSt (test_writer 0 MaxInt false) (fresh_world (cet 0)))).2 in
  let norename := mkSt (obj opened_)
                       (set_faults [None; None; Some (mkFault EACCES 0)] (env opened_)) in
  ((open missing).1 = Val (Some ENOENT)
   ∧ (Write (bytes "x") missing).1 = Val (0, Some ErrInvalid))
  ∧ ((open flaky).1 = Val (Some EACCES)
     ∧ (Write (bytes "x") flaky).1 = Val (1, None))
  ∧ ((rotate norename).1 = Val (Some EACCES)
     ∧ (Write (bytes "x") norename).1 = Val (0, Some ErrInvalid)).
Proof. repeat split; vm_compute; reflexivity. Qed.

(** ** The retention sweep and names it cannot slice *)

(** C5 (fails on the code). The sweep takes a fixed-width substring of
    every entry that is not a directory and is not equal to the whole
    configured path, without looking at the entry's length.
    - An unrelated short file beside the log makes [drain] panic.
    - The live log is compared by its entry name with the configured
      path; when the path has a directory part the two differ, the live
      log is not skipped, and its own, short, name makes [drain] panic.
    - Directories are skipped and long names that do not parse are
      ignored, as the claim says. *)
Theorem drain_panics_on_short_entry :
  let w := test_writer 56 10 false in
  let notes := set_files {[ logDir := NDir; "crt/notes.txt" := NFile [] 420 ]} (fresh_world (cet 0)) in
  let live := set_files {[ logDir := NDir; logFile := NFile [] 420 ]} (fresh_world (cet 0)) in
  let other := set_files {[ logDir := NDir; "crt/old" := NDir;
                            "crt/a-long-name-that-is-not-an-archive-at-all.txt" := NFile [] 420 ]}
                         (fresh_world (cet 0)) in
  (drain (mkSt w notes)).1 = Panic "slice bounds out of range"
  ∧ (drain (mkSt w live)).1 = Panic "slice bounds out of range"
  ∧ drain (mkSt w other) = (Val tt, mkSt w other).
Proof. repeat split; vm_compute; reflexivity. Qed.

(** C8 (fails on the code). A rotation at an instant whose zone offset is
    zero names the archive with the short form of the zone, the letter
    Z; the name is then five bytes shorter than the width the sweep
    slices, so reading the timestamp back panics instead of parsing. The
    same wall-clock reading one hour east of UTC is read back exact. *)
Theorem archive_name_in_UTC_is_not_read_back :
  let w := test_writer 56 10 false in
  let base := filepath.Base logFile in
  let lo := (String.length base + 1)%nat in
  let hi := (String.length base + 1 + String.length TimeFmt)%nat in
  (∃ s, (Open;; Rotate) (mkSt w (fresh_world (utc 0))) = (Panic "slice bounds out of range", s)
        ∧ renames (env s) = [(logFile, "crt/comrot.log.2015-01-01T12:00:00Z")]
        ∧ fp (obj s) = None)
  ∧ slice (base +:+ "." +:+ time.Format (utc 0)) lo hi = None
  ∧ slice (base +:+ "." +:+ time.Format (utc 0) +:+ ".gz") lo hi = None
  ∧ (slice (base +:+ "." +:+ time.Format (cet 0)) lo hi ≫= time.Parse) = Some (cet 0).
Proof.
  repeat split; try (vm_compute; reflexivity).
  eexists. repeat split; vm_compute; reflexivity.
Qed.

(** ** Machine arithmetic and strings *)

Lemma wrap64_id (z : Z) : - 2 ^ 63 ≤ z < 2 ^ 63 → wrap64 z = z.
Proof. intros Hz. unfold wrap64. rewrite Z.mod_small; lia. Qed.

Lemma MaxInt_value : MaxInt = 2 ^ 63 - 1.
Proof. reflexivity. Qed.

Lemma DefaultMaxSize_value : DefaultMaxSize = 10 * 2 ^ 20.
Proof. reflexivity. Qed.

Lemma length_string_app (a b : string) :
  String.length (a +:+ b) = (String.length a + String.length b)%nat.
Proof. induction a as [|c a IH]; simpl; [reflexivity | rewrite IH; reflexivity]. Qed.


(** ** What the system calls do to the world *)

Lemma next_fault_cases (x : World) :
  (faults x = [] ∧ sys.next_fault x = (None, x))
  ∨ (∃ f rest, faults x = f :: rest ∧ sys.next_fault x = (f, set_faults rest x)).
Proof. unfold sys.next_fault. destruct (faults x); [left | right]; eauto. Qed.

Lemma next_fault_quiet (x : World) : faults x = [] → sys.next_fault x = (None, x).
Proof. intros Hq. unfold sys.next_fault. rewrite Hq. reflexivity. Qed.

Lemma next_fault_files (x : World) : files (sys.next_fault x).2 = files x.
Proof. unfold sys.next_fault. destruct (faults x); reflexivity. Qed.

Lemma next_fault_opened (x : World) : opened (sys.next_fault x).2 = opened x.
Proof. unfold sys.next_fault. destruct (faults x); reflexivity. Qed.

(** [os.Create] either fails and yields no file, or yields an open
    descriptor for the path, which now names an empty regular file. *)
Lemma Create_result (path : string) (x : World) :
  match os.Create path x with
  | (Some f, None, x') =>
      fname f = path ∧ f ∈ opened x' ∧ (∃ mode, files x' !! path = Some (NFile [] mode))
      ∧ (files x !! path = None → files x' !! path = Some (NFile [] create_mode))
  | (None, Some _, x') => files x' = files x ∧ opened x' = opened x
  | _ => False
  end.
Proof.
  unfold os.Create.
  pose proof (next_fault_files x) as Hf. pose proof (next_fault_opened x) as Ho.
  destruct (sys.next_fault x) as [flt x1]. simpl in Hf, Ho.
  destruct flt as [ft|]; [auto |].
  destruct (negb (sys.is_dir x1 (filepath.Dir path))); [auto |].
  destruct (files x1 !! path) as [[d m|]|] eqn:Hp; simpl; [ | auto | ].
  - repeat split; [left | eexists; apply lookup_insert_eq | rewrite <- Hf, Hp; discriminate].
  - repeat split; [left | eexists; apply lookup_insert_eq | intros _; apply lookup_insert_eq].
Qed.

(** [os.OpenFile] for appending either fails and yields no file, or
    yields an open descriptor for a regular file that is already there;
    the store is not touched. *)
Lemma OpenFile_append_result (path : string) (x : World) :
  match os.OpenFile_append path x with
  | (Some f, None, x') =>
      fname f = path ∧ f ∈ opened x' ∧ files x' = files x
      ∧ ∃ data mode, files x !! path = Some (NFile data mode)
  | (None, Some _, x') => files x' = files x ∧ opened x' = opened x
  | _ => False
  end.
Proof.
  unfold os.OpenFile_append.
  pose proof (next_fault_files x) as Hf. pose proof (next_fault_opened x) as Ho.
  destruct (sys.next_fault x) as [flt x1]. simpl in Hf, Ho.
  destruct flt as [ft|]; [auto |].
  destruct (files x1 !! path) as [[d m|]|] eqn:Hp; simpl; [ | auto | auto ].
  repeat split; [left | auto | rewrite <- Hf, Hp; eauto].
Qed.

(** [os.Stat] reads the store and changes nothing but the script. *)
Lemma Stat_result (path : string) (x : World) :
  match os.Stat path x with
  | (inl info, x') =>
      files x' = files x ∧ opened x' = opened x
      ∧ ∃ n, files x !! path = Some n ∧ info = info_of path n
  | (inr e, x') =>
      files x' = files x ∧ opened x' = opened x
      ∧ (faults x = [] → e = ENOENT ∧ files x !! path = None)
  end.
Proof.
  unfold os.Stat.
  pose proof (next_fault_files x) as Hf. pose proof (next_fault_opened x) as Ho.
  destruct (next_fault_cases x) as [[Hq Hn]|(f & rest & Hq & Hn)]; rewrite Hn in *; simpl in *.
  - destruct (files x !! path) as [n|] eqn:Hp; repeat split; eauto.
  - destruct f as [ft|]; simpl.
    + repeat split; auto; congruence.
    + destruct (files x !! path) as [n|] eqn:Hp; repeat split; eauto; congruence.
Qed.

(** ** Open, unfolded into its system calls *)

Lemma open_unfold `{Gzip} (w : RotateWriter) (x : World) :
  open (mkSt w x) =
  let '(st, x1) := os.Stat (filename w) x in
  match st with
  | inr ENOENT =>
      let '(f, err, x2) := os.Create (filename w) x1 in
      (Val err, mkSt (set_fsize 0 (set_fp f w)) x2)
  | _ =>
      let '(f, err, x2) := os.OpenFile_append (filename w) x1 in
      match err, st with
      | Some e, _ => (Val (Some e), mkSt (set_fp f w) x2)
      | None, inl info => (Val None, mkSt (set_fsize (Size info) (set_fp f w)) x2)
      | None, inr _ =>
          (Panic "invalid memory address or nil pointer dereference", mkSt (set_fp f w) x2)
      end
  end.
Proof.
  unfold open, load, assign, syscall, mbind, M_bind, mret, M_ret. simpl.
  destruct (os.Stat (filename w) x) as [st x1]. simpl.
  destruct st as [info|e]; simpl.
  - destruct (os.OpenFile_append (filename w) x1) as [[f err] x2]. simpl.
    destruct err; reflexivity.
  - destruct e; simpl;
      try (destruct (os.OpenFile_append (filename w) x1) as [[f err] x2]; simpl;
           destruct err; reflexivity).
    destruct (os.Create (filename w) x1) as [[f err] x2]. reflexivity.
Qed.

(** However [open] ends, the writer holds a handle exactly when [open]
    returned nil, and then the handle is an open descriptor for the
    configured path, which names a regular file whose length is the size
    counter. *)
Lemma open_outcome `{Gzip} (w : RotateWriter) (x : World) :
  match open (mkSt w x) with
  | (Val None, s) =>
      filename (obj s) = filename w ∧ MaxSize (obj s) = MaxSize w
      ∧ MaxFiles (obj s) = MaxFiles w ∧ Compress (obj s) = Compress w
      ∧ ∃ h data mode,
          fp (obj s) = Some h ∧ fname h = filename w ∧ h ∈ opened (env s)
          ∧ files (env s) !! filename w = Some (NFile data mode)
          ∧ fsize (obj s) = Z.of_nat (length data)
  | (Val (Some _), s) | (Panic _, s) =>
      filename (obj s) = filename w ∧ MaxSize (obj s) = MaxSize w
      ∧ MaxFiles (obj s) = MaxFiles w ∧ Compress (obj s) = Compress w
      ∧ files (env s) = files x
  end.
Proof.
  rewrite open_unfold.
  pose proof (Stat_result (filename w) x) as HS.
  destruct (os.Stat (filename w) x) as [st x1].
  assert (Hcreate :
    match (let '(f, err, x2) := os.Create (filename w) x1 in
           (Val err, mkSt (set_fsize 0 (set_fp f w)) x2)) with
    | (Val None, s) =>
        filename (obj s) = filename w ∧ MaxSize (obj s) = MaxSize w
        ∧ MaxFiles (obj s) = MaxFiles w ∧ Compress (obj s) = Compress w
        ∧ ∃ h data mode,
            fp (obj s) = Some h ∧ fname h = filename w ∧ h ∈ opened (env s)
            ∧ files (env s) !! filename w = Some (NFile data mode)
            ∧ fsize (obj s) = Z.of_nat (length data)
    | (Val (Some _), s) | (Panic _, s) =>
        filename (obj s) = filename w ∧ MaxSize (obj s) = MaxSize w
        ∧ MaxFiles (obj s) = MaxFiles w ∧ Compress (obj s) = Compress w
        ∧ files (env s) = files x1
    end).
  { pose proof (Create_result (filename w) x1) as HC.
    destruct (os.Create (filename w) x1) as [[f err] x2].
    destruct f as [h|], err as [e|]; try contradiction; simpl.
    - destruct HC as (Hn & Ho & (mode & Hm) & _).
      repeat split. exists h, [], mode. auto.
    - destruct HC as [Hf _]. auto. }
  assert (Happend : ∀ info,
    st = inl info ∨ (∃ e, st = inr e) →
    match (let '(f, err, x2) := os.OpenFile_append (filename w) x1 in
           match err, st with
           | Some e, _ => (Val (Some e), mkSt (set_fp f w) x2)
           | None, inl info => (Val None, mkSt (set_fsize (Size info) (set_fp f w)) x2)
           | None, inr _ =>
               (Panic "invalid memory address or nil pointer dereference", mkSt (set_fp f w) x2)
           end) with
    | (Val None, s) =>
        filename (obj s) = filename w ∧ MaxSize (obj s) = MaxSize w
        ∧ MaxFiles (obj s) = MaxFiles w ∧ Compress (obj s) = Compress w
        ∧ ∃ h data mode,
            fp (obj s) = Some h ∧ fname h = filename w ∧ h ∈ opened (env s)
            ∧ files (env s) !! filename w = Some (NFile data mode)
            ∧ fsize (obj s) = Z.of_nat (length data)
    | (Val (Some _), s) | (Panic _, s) =>
        filename (obj s) = filename w ∧ MaxSize (obj s) = MaxSize w
        ∧ MaxFiles (obj s) = MaxFiles w ∧ Compress (obj s) = Compress w
        ∧ files (env s) = files x1
    end).
  { intros info0 _.
    pose proof (OpenFile_append_result (filename w) x1) as HO.
    destruct (os.OpenFile_append (filename w) x1) as [[f err] x2].
    destruct f as [h|], err as [e|]; try contradiction; simpl.
    - destruct HO as (Hn & Ho & Hf & data & mode & Hp).
      destruct st as [info|e]; simpl; [| auto].
      repeat split. exists h, data, mode. repeat split; auto.
      + rewrite Hf. exact Hp.
      + destruct HS as (Hf1 & _ & n & Hn1 & ->).
        rewrite Hf1, Hn1 in Hp. injection Hp as ->. reflexivity.
    - destruct HO as [Hf _]. auto. }
  assert (Hx1 : files x1 = files x) by (destruct st; tauto).
  rewrite Hx1 in Hcreate, Happend.
  destruct st as [info|e].
  - apply (Happend info). auto.
  - destruct e; try (apply (Happend (mkInfo "" 0 0 false)); eauto).
    exact Hcreate.
Qed.

(** ** The system calls when the environment injects no failure *)

Lemma Stat_quiet (path : string) (x : World) :
  faults x = [] →
  os.Stat path x =
    (match files x !! path with Some n => inl (info_of path n) | None => inr ENOENT end, x).
Proof.
  intros Hq. unfold os.Stat. rewrite (next_fault_quiet x Hq).
  destruct (files x !! path); reflexivity.
Qed.

Lemma Create_quiet (path : string) (x : World) :
  faults x = [] → sys.is_dir x (filepath.Dir path) = true → files x !! path = None →
  os.Create path x =
    (Some (mkFile (next_fd x) path), None,
     mkWorld (<[path := NFile [] create_mode]> (files x))
             (mkFile (next_fd x) path :: opened x) (S (next_fd x))
             (clock x) (faults x) (renames x)).
Proof.
  intros Hq Hd Hp. unfold os.Create. rewrite (next_fault_quiet x Hq), Hd, Hp. reflexivity.
Qed.

Lemma OpenFile_append_quiet (path : string) (x : World) data mode :
  faults x = [] → files x !! path = Some (NFile data mode) →
  os.OpenFile_append path x =
    (Some (mkFile (next_fd x) path), None,
     mkWorld (files x) (mkFile (next_fd x) path :: opened x) (S (next_fd x))
             (clock x) (faults x) (renames x)).
Proof.
  intros Hq Hp. unfold os.OpenFile_append. rewrite (next_fault_quiet x Hq), Hp. reflexivity.
Qed.

(** ** NewRotateWriter *)

(** C10. [NewRotateWriter] builds a writer with [MaxSize] ten times 2^20,
    [MaxFiles] the largest [int] and [Compress] set, and opens the file
    at once. A writer is returned exactly when that [Open] returned nil,
    and then it holds an open descriptor for a regular file at the path,
    with the size counter at the file's length. When [Open] returns an
    error the result is nil: the function has no error result. On a
    quiet system, with the directory present and the path free, the file
    is created empty. *)
Theorem NewRotateWriter_defaults `{Gzip} (name : string) (x : World) :
  let w0 := mkWriter name (10 * 2 ^ 20) (2 ^ 63 - 1) true None 0 in
  (∀ w x', NewRotateWriter name x = (Val (Some w), x') →
     Open (mkSt w0 x) = (Val None, mkSt w x')
     ∧ filename w = name ∧ MaxSize w = 10 * 2 ^ 20 ∧ MaxFiles w = MaxInt
     ∧ Compress w = true
     ∧ ∃ h data mode,
         fp w = Some h ∧ fname h = name ∧ h ∈ opened x'
         ∧ files x' !! name = Some (NFile data mode)
         ∧ fsize w = Z.of_nat (length data))
  ∧ (∀ e s, Open (mkSt w0 x) = (Val (Some e), s) →
       NewRotateWriter name x = (Val None, env s))
  ∧ (faults x = [] → files x !! name = None →
     sys.is_dir x (filepath.Dir name) = true →
     ∃ w x', NewRotateWriter name x = (Val (Some w), x')
             ∧ files x' !! name = Some (NFile [] create_mode) ∧ fsize w = 0).
Proof.
  intros w0.
  assert (Hdef : NewRotateWriter name x =
                 match Open (mkSt w0 x) with
                 | (Val None, s) => (Val (Some (obj s)), env s)
                 | (Val (Some _), s) => (Val None, env s)
                 | (Panic msg, s) => (Panic msg, env s)
                 end) by reflexivity.
  split; [| split].
  - intros w x' Hnew. rewrite Hdef in Hnew.
    pose proof (open_outcome w0 x) as Hout. unfold Open in *.
    destruct (open (mkSt w0 x)) as [[[e|]|msg] [w1 x1]]; simpl in Hnew; try discriminate.
    injection Hnew as -> ->. simpl in Hout.
    destruct Hout as (Hn & Hs & Hm & Hc & h & data & mode & Hfp & Hh & Ho & Hf & Hz).
    split; [reflexivity |]. repeat split; auto.
    exists h, data, mode. auto.
  - intros e s Hopen. rewrite Hdef, Hopen. reflexivity.
  - intros Hq Hp Hd. rewrite Hdef. unfold Open. rewrite open_unfold. simpl.
    rewrite (Stat_quiet name x Hq), Hp.
    rewrite (Create_quiet name x Hq Hd Hp). simpl.
    do 2 eexists. split; [reflexivity |]. split; [apply lookup_insert_eq | reflexivity].
Qed.

(** ** The retention sweep *)

#[global] Instance byTime_total : Total byTime.
Proof.
  intros a b. unfold byTime, Less, time.After.
  destruct (Z.ltb_spec (time.unix_nano (t a)) (time.unix_nano (t b)));
    destruct (Z.ltb_spec (time.unix_nano (t b)) (time.unix_nano (t a))); auto; lia.
Qed.

#[global] Instance byTime_trans : Transitive byTime.
Proof.
  intros a b c. unfold byTime, Less, time.After.
  rewrite !Z.ltb_ge. lia.
Qed.



Lemma slice_some (s : string) (lo hi : nat) :
  (lo ≤ hi)%nat → (hi ≤ String.length s)%nat → is_Some (slice s lo hi).
Proof. intros H1 H2. unfold slice. rewrite decide_True by auto. eauto. Qed.

Lemma slice_none (s : string) (lo hi : nat) :
  (String.length s < hi)%nat → slice s lo hi = None.
Proof. intros Hlt. unfold slice. rewrite decide_False; [reflexivity | lia]. Qed.

Lemma collect_cons (name : string) (f : FileInfo) (rest : list FileInfo) (acc : list fragInfo) :
  collect name (f :: rest) acc =
  if IsDir f then collect name rest acc
  else if decide (Name f = name) then collect name rest acc
  else match slice (Name f) (stamp_lo name) (stamp_hi name) with
       | None => Panic "slice bounds out of range"
       | Some ts =>
           match time.Parse ts with
           | Some tm => collect name rest (acc ++ [mkFrag tm f])
           | None => collect name rest acc
           end
       end.
Proof. reflexivity. Qed.

(** On entries it can slice, the collecting loop does not panic, and it
    appends what [recognize] makes of each entry, in order. *)
Lemma collect_sliceable (name : string) (files : list FileInfo) (acc : list fragInfo) :
  Forall (sliceable name) files →
  collect name files acc = Val (acc ++ omap (recognize name) files).
Proof.
  intros Hall. revert acc. induction Hall as [|f files Hf Hall IH]; intros acc.
  - simpl. rewrite app_nil_r. reflexivity.
  - rewrite collect_cons. cbn [omap list_omap]. unfold recognize at 1. unfold sliceable in Hf.
    destruct (IsDir f); [apply IH |].
    destruct (decide (Name f = name)) as [|Hne]; [apply IH |].
    destruct (slice_some (Name f) (stamp_lo name) (stamp_hi name)) as [ts Hts].
    { unfold stamp_lo, stamp_hi. lia. }
    { auto. }
    rewrite Hts. cbn [mbind option_bind].
    destruct (time.Parse ts) as [tm|]; cbn [mbind option_bind]; [| apply IH].
    rewrite IH, <- app_assoc. reflexivity.
Qed.

(** An entry too short to slice, met before any fault, makes the loop
    panic. *)
Lemma collect_short (name : string) (f : FileInfo) (rest : list FileInfo) (acc : list fragInfo) :
  IsDir f = false → Name f ≠ name → (String.length (Name f) < stamp_hi name)%nat →
  collect name (f :: rest) acc = Panic "slice bounds out of range".
Proof.
  intros Hd Hn Hlen. rewrite collect_cons, Hd. rewrite decide_False by exact Hn.
  rewrite slice_none by exact Hlen. reflexivity.
Qed.

(** *** Removing a list of files *)

Lemma Remove_quiet (path : string) (x : World) :
  faults x = [] → files x !! path ≠ Some NDir →
  os.Remove path x =
    (match files x !! path with Some _ => None | None => Some ENOENT end,
     set_files (delete path (files x)) x).
Proof.
  intros Hq Hnd. unfold os.Remove. rewrite (next_fault_quiet x Hq).
  destruct (files x !! path) as [[d m|]|] eqn:Hp; [reflexivity | congruence |].
  rewrite delete_id by exact Hp. destruct x; reflexivity.
Qed.

Lemma lookup_foldr_delete (m : gmap string Node) (ps : list string) (p : string) :
  foldr delete m ps !! p = if decide (p ∈ ps) then None else m !! p.
Proof.
  induction ps as [|q ps IH]; cbn [foldr].
  - destruct (decide (p ∈ [])) as [Hin|]; [| reflexivity].
    apply elem_of_nil in Hin. contradiction.
  - destruct (decide (q = p)) as [->|Hne].
    + rewrite lookup_delete_eq.
      destruct (decide (p ∈ p :: ps)) as [|Hnin]; [reflexivity |].
      exfalso. apply Hnin. left.
    + rewrite lookup_delete_ne by exact Hne. rewrite IH.
      destruct (decide (p ∈ ps)) as [Hin|Hnin]; destruct (decide (p ∈ q :: ps)) as [Hin'|Hnin'];
        try reflexivity.
      * exfalso. apply Hnin'. right. exact Hin.
      * apply elem_of_cons in Hin' as [->|Hin']; [congruence | contradiction].
Qed.

(** The loop of the spawned function: on a quiet system, with no
    directory among the targets, the targets are gone afterwards and
    nothing else has changed. *)
Lemma range_remove `{Gzip} (name : string) (w : RotateWriter) (l : list fragInfo) (x : World) :
  faults x = [] →
  Forall (λ f, files x !! sibling name (info f) ≠ Some NDir) l →
  range l (λ f, syscall (os.Remove (filepath.Join (filepath.Dir name) (Name (info f))));; mret tt)
        (mkSt w x)
  = (Val tt, mkSt w (set_files (foldr delete (files x) (rev (sibling name ∘ info <$> l))) x)).
Proof.
  revert x. induction l as [|f l IH]; intros x Hq Hall; simpl.
  - destruct x; reflexivity.
  - apply Forall_cons in Hall as [Hf Hall].
    unfold mbind at 1, M_bind at 1. unfold mbind at 1, M_bind at 1, syscall at 1. simpl.
    fold (sibling name (info f)).
    rewrite (Remove_quiet _ x Hq Hf). simpl.
    unfold mret at 1, M_ret at 1.
    rewrite IH; simpl; [| exact Hq |].
    + rewrite foldr_app. simpl. reflexivity.
    + eapply Forall_impl; [exact Hall |]. intros g Hg. simpl.
      destruct (decide (sibling name (info f) = sibling name (info g))) as [<-|Hne].
      * rewrite lookup_delete_eq. discriminate.
      * rewrite lookup_delete_ne by exact Hne. exact Hg.
Qed.

(** *** What the directory listing holds *)

Lemma elem_of_children (x : World) (dir p : string) (n : Node) :
  (p, n) ∈ sys.children x dir ↔ files x !! p = Some n ∧ p ≠ dir ∧ filepath.Dir p = dir.
Proof.
  unfold sys.children. rewrite list_elem_of_filter, elem_of_map_to_list. simpl. tauto.
Qed.

Lemma elem_of_listing (x : World) (dir : string) (f : FileInfo) :
  f ∈ ioutil.listing x dir ↔
  ∃ p n, files x !! p = Some n ∧ p ≠ dir ∧ filepath.Dir p = dir ∧ f = info_of p n.
Proof.
  unfold ioutil.listing. rewrite merge_sort_Permutation, list_elem_of_fmap. split.
  - intros ([p n] & -> & Hin). apply elem_of_children in Hin. exists p, n. simpl. tauto.
  - intros (p & n & Hp & Hne & Hd & ->). exists (p, n). split; [reflexivity |].
    apply elem_of_children. auto.
Qed.

Lemma Name_info_of (p : string) (n : Node) : Name (info_of p n) = filepath.Base p.
Proof. destruct n; reflexivity. Qed.

Lemma IsDir_info_of (p : string) (n : Node) : IsDir (info_of p n) = false → ∃ d m, n = NFile d m.
Proof. destruct n; simpl; [eauto | discriminate]. Qed.

(** In a canonical store the path the sweep removes for an entry of the
    log's directory is the path of that entry. *)
Lemma sibling_info_of (x : World) (name p : string) (n : Node) :
  canonical x → files x !! p = Some n → filepath.Dir p = filepath.Dir name →
  sibling name (info_of p n) = p.
Proof.
  intros Hc Hp Hd. unfold sibling. rewrite Name_info_of, <- Hd. exact (Hc p n Hp).
Qed.

Lemma NoDup_listing_paths (x : World) (name : string) :
  canonical x → NoDup (sibling name <$> ioutil.listing x (filepath.Dir name)).
Proof.
  intros Hc. unfold ioutil.listing. rewrite merge_sort_Permutation.
  rewrite <- list_fmap_compose.
  assert (Heq : (sibling name ∘ (λ e : string * Node, info_of e.1 e.2))
                  <$> sys.children x (filepath.Dir name)
                = fst <$> sys.children x (filepath.Dir name)).
  { apply list_fmap_ext. intros i [p n] Hin. apply list_elem_of_lookup_2 in Hin.
    apply elem_of_children in Hin as (Hp & _ & Hd). simpl.
    eapply sibling_info_of; eauto. }
  rewrite Heq. unfold sys.children.
  eapply sublist_NoDup; [apply (NoDup_fst_map_to_list (files x)) |].
  apply fmap_sublist, sublist_filter.
Qed.

(** The fragments are entries of the listing, in the listing's order. *)
Lemma recognize_info (name : string) (f : FileInfo) (g : fragInfo) :
  recognize name f = Some g →
  info g = f ∧ IsDir f = false ∧ Name f ≠ name
  ∧ (slice (Name f) (stamp_lo name) (stamp_hi name) ≫= time.Parse) = Some (t g).
Proof.
  unfold recognize. destruct (IsDir f); [discriminate |].
  destruct (decide (Name f = name)); [discriminate |].
  destruct (slice (Name f) (stamp_lo name) (stamp_hi name)) as [ts|]; simpl; [| discriminate].
  destruct (time.Parse ts) as [tm|] eqn:Hp; simpl; [| discriminate].
  intros [= <-]. simpl. auto.
Qed.

Lemma info_omap_recognize (name : string) (l : list FileInfo) :
  info <$> omap (recognize name) l `sublist_of` l.
Proof.
  induction l as [|f l IH]; simpl; [constructor |].
  destruct (recognize name f) as [g|] eqn:Hg; simpl.
  - apply recognize_info in Hg as (<- & _). constructor. exact IH.
  - constructor. exact IH.
Qed.

(** *** The sweep, unfolded into its phases *)

Lemma drain_unfold `{Gzip} (w : RotateWriter) (x : World) :
  drain (mkSt w x) =
  if bool_decide (MaxFiles w = MaxInt) then (Val tt, mkSt w x)
  else
    let '(r, x1) := ioutil.ReadDir (filepath.Dir (filename w)) x in
    match r with
    | inr _ => (Val tt, mkSt w x1)
    | inl files =>
        match collect (filename w) files [] with
        | Panic msg => (Panic msg, mkSt w x1)
        | Val frags =>
            let sorted := merge_sort byTime frags in
            if MaxFiles w <? Z.of_nat (length sorted) then
              if MaxFiles w <? 0 then (Panic "slice bounds out of range", mkSt w x1)
              else
                go (range (drop (Z.to_nat (MaxFiles w)) sorted) (λ f,
                      syscall (os.Remove (filepath.Join (filepath.Dir (filename w))
                                                        (Name (info f))));;
                      mret tt))
                   (mkSt w x1)
            else (Val tt, mkSt w x1)
        end
    end.
Proof.
  unfold drain, load. unfold mbind at 1, M_bind at 1. cbn [obj env].
  destruct (bool_decide (MaxFiles w = MaxInt)); [reflexivity |].
  unfold mbind at 1, M_bind at 1. cbn [obj env].
  unfold mbind at 1, M_bind at 1, syscall at 1. cbn [obj env].
  destruct (ioutil.ReadDir (filepath.Dir (filename w)) x) as [[files|e] x1]; [| reflexivity].
  destruct (collect (filename w) files []) as [frags|msg]; [| reflexivity].
  cbv zeta.
  destruct (MaxFiles w <? Z.of_nat (length (merge_sort byTime frags))); [| reflexivity].
  destruct (MaxFiles w <? 0); reflexivity.
Qed.

Lemma drain_unbounded `{Gzip} (w : RotateWriter) (x : World) :
  MaxFiles w = MaxInt → drain (mkSt w x) = (Val tt, mkSt w x).
Proof. intros Hm. rewrite drain_unfold, bool_decide_eq_true_2 by exact Hm. reflexivity. Qed.

Lemma ReadDir_quiet (dir : string) (x : World) :
  faults x = [] → sys.is_dir x dir = true →
  ioutil.ReadDir dir x = (inl (ioutil.listing x dir), x).
Proof.
  intros Hq Hd. unfold ioutil.ReadDir. rewrite (next_fault_quiet x Hq).
  unfold sys.is_dir in Hd. destruct (files x !! dir) as [[d m|]|]; try discriminate. reflexivity.
Qed.



(** ** Frame conditions of the system calls, whatever the script says *)

#[local] Arguments os.Stat : simpl never.
#[local] Arguments os.Create : simpl never.
#[local] Arguments os.OpenFile_append : simpl never.
#[local] Arguments os.Open : simpl never.
#[local] Arguments os.Write : simpl never.
#[local] Arguments os.Close : simpl never.
#[local] Arguments os.FStat : simpl never.
#[local] Arguments os.Rename : simpl never.
#[local] Arguments os.Remove : simpl never.
#[local] Arguments ioutil.ReadDir : simpl never.
#[local] Arguments ioutil.WriteFile : simpl never.
#[local] Arguments bufio.Read : simpl never.

Ltac fault_cases x :=
  let Hf := fresh "Hf" in
  let x1 := fresh "x1" in
  pose proof (next_fault_files x) as Hf;
  destruct (sys.next_fault x) as [[?|] x1]; simpl in Hf.

Lemma Open_files (path : string) (x : World) : files (os.Open path x).2 = files x.
Proof.
  unfold os.Open. fault_cases x; [exact Hf |].
  destruct (files _ !! path); exact Hf.
Qed.

Lemma Close_files (f : option OsFile) (x : World) : files (os.Close f x).2 = files x.
Proof.
  unfold os.Close. destruct f as [h|]; [| reflexivity].
  destruct (negb (sys.is_open x h)); [reflexivity |].
  pose proof (next_fault_files (set_opened (filter (λ g, g ≠ h) (opened x)) x)) as Hf.
  destruct (sys.next_fault _) as [flt x1]. exact Hf.
Qed.

Lemma FStat_files (f : option OsFile) (x : World) : files (os.FStat f x).2 = files x.
Proof.
  unfold os.FStat. destruct f as [h|]; [| reflexivity].
  destruct (negb (sys.is_open x h)); [reflexivity |].
  fault_cases x; [exact Hf |].
  destruct (files _ !! fname h); exact Hf.
Qed.

Lemma Read_files (f : OsFile) (n : nat) (x : World) : files (bufio.Read f n x).2 = files x.
Proof.
  unfold bufio.Read. destruct n; [reflexivity |].
  destruct (negb (sys.is_open x f)); [reflexivity |].
  fault_cases x; [exact Hf |].
  destruct (files _ !! fname f) as [[[|b d] m|]|]; exact Hf.
Qed.

Lemma Stat_files (path : string) (x : World) : files (os.Stat path x).2 = files x.
Proof.
  unfold os.Stat. fault_cases x; [exact Hf |].
  destruct (files _ !! path); exact Hf.
Qed.

Lemma ReadDir_files (dir : string) (x : World) : files (ioutil.ReadDir dir x).2 = files x.
Proof.
  unfold ioutil.ReadDir. fault_cases x; [exact Hf |].
  destruct (files _ !! dir) as [[d m|]|]; exact Hf.
Qed.

Lemma WriteFile_absent (path q : string) data perm (x : World) :
  q ≠ path → files x !! q = None → files (ioutil.WriteFile path data perm x).2 !! q = None.
Proof.
  intros Hne Hq. unfold ioutil.WriteFile. fault_cases x; rewrite <- Hf in Hq; [exact Hq |].
  destruct (negb _); [exact Hq |].
  destruct (files _ !! path) as [[d m|]|]; simpl; [| exact Hq |];
    rewrite lookup_insert_ne by congruence; exact Hq.
Qed.

Lemma Remove_absent (path q : string) (x : World) :
  files x !! q = None → files (os.Remove path x).2 !! q = None.
Proof.
  intros Hq. unfold os.Remove. fault_cases x; rewrite <- Hf in Hq; [exact Hq |].
  destruct (files _ !! path) as [[d m|]|]; simpl; [| | exact Hq].
  - rewrite lookup_delete. case_decide; [reflexivity | exact Hq].
  - destruct (sys.children _ path); simpl; [| exact Hq].
    rewrite lookup_delete. case_decide; [reflexivity | exact Hq].
Qed.

(** ** Compress, unfolded into its system calls *)

Lemma compress_unfold `{Gzip} (source : string) (w : RotateWriter) (x : World) :
  compress source (mkSt w x) =
  let '(rawfile, err, x1) := os.Open source x in
  match rawfile, err with
  | Some raw, None =>
      let '(r, x5) :=
        let '(st, x2) := os.FStat (Some raw) x1 in
        match st with
        | inr _ => (Panic "invalid memory address or nil pointer dereference", x2)
        | inl info =>
            let '(rawbytes, err, x3) := bufio.Read raw (Z.to_nat (Size info)) x2 in
            match err with
            | Some e => (Val (Some e), x3)
            | None =>
                let '(err, x4) :=
                  ioutil.WriteFile (source +:+ ".gz") (gzip rawbytes) (Mode info) x3 in
                match err with
                | Some e => (Val (Some e), x4)
                | None => (Val None, (os.Remove source x4).2)
                end
            end
        end in
      (r, mkSt w (os.Close (Some raw) x5).2)
  | _, Some e => (Val (Some e), mkSt w x1)
  | None, None => (Val None, mkSt w x1)
  end.
Proof.
  unfold compress, defer, go, panic, mbind, M_bind, mret, M_ret, syscall. simpl.
  destruct (os.Open source x) as [[rawfile err] x1]. simpl.
  destruct rawfile as [raw|], err as [e|]; try reflexivity. simpl.
  destruct (os.FStat (Some raw) x1) as [[info|e] x2]; simpl.
  - destruct (bufio.Read raw (Z.to_nat (Size info)) x2) as [[rawbytes err] x3]. simpl.
    destruct err as [e|]; simpl.
    + destruct (os.Close (Some raw) x3). reflexivity.
    + destruct (ioutil.WriteFile _ _ _ x3) as [err x4]. simpl.
      destruct err as [e|]; simpl.
      * destruct (os.Close (Some raw) x4). reflexivity.
      * destruct (os.Remove source x4) as [er x5]. simpl.
        destruct (os.Close (Some raw) x5). reflexivity.
  - destruct (os.Close (Some raw) x2). reflexivity.
Qed.

(** [compress] leaves the writer alone and creates no path but the
    compressed archive. *)
Lemma compress_frame `{Gzip} (source : string) (s : St) :
  obj (compress source s).2 = obj s
  ∧ ∀ p, p ≠ source +:+ ".gz" → files (env s) !! p = None →
         files (env (compress source s).2) !! p = None.
Proof.
  destruct s as [w x]. rewrite compress_unfold.
  pose proof (Open_files source x) as H1.
  destruct (os.Open source x) as [[rawfile err] x1]. simpl in H1.
  destruct rawfile as [raw|], err as [e|]; simpl;
    try (split; [reflexivity | intros p _ Hp; rewrite H1; exact Hp]).
  pose proof (FStat_files (Some raw) x1) as H2.
  destruct (os.FStat (Some raw) x1) as [[info|e] x2]; simpl in H2.
  - pose proof (Read_files raw (Z.to_nat (Size info)) x2) as H3.
    destruct (bufio.Read raw (Z.to_nat (Size info)) x2) as [[rawbytes err] x3]. simpl in H3.
    destruct err as [e|].
    + split; [reflexivity |]. intros p _ Hp. simpl.
      rewrite Close_files, H3, H2, H1. exact Hp.
    + pose proof (λ p, WriteFile_absent (source +:+ ".gz") p (gzip rawbytes) (Mode info) x3) as H4.
      destruct (ioutil.WriteFile _ _ _ x3) as [err x4]. simpl in H4.
      destruct err as [e|]; (split; [reflexivity |]); intros p Hne Hp; simpl;
        rewrite Close_files; [| apply Remove_absent]; apply H4; auto;
        rewrite H3, H2, H1; exact Hp.
  - split; [reflexivity |]. intros p _ Hp. simpl. rewrite Close_files, H2, H1. exact Hp.
Qed.

(** The sweep leaves the writer alone and creates no path. *)
Lemma range_remove_frame `{Gzip} (name : string) (l : list fragInfo) (s : St) :
  let body := λ f : fragInfo,
    syscall (os.Remove (filepath.Join (filepath.Dir name) (Name (info f))));; mret tt in
  (range l body s).1 = Val tt
  ∧ obj (range l body s).2 = obj s
  ∧ ∀ p, files (env s) !! p = None → files (env (range l body s).2) !! p = None.
Proof.
  intros body. revert s. induction l as [|f l IH]; intros [w x].
  - simpl. auto.
  - assert (Hstep : range (f :: l) body (mkSt w x)
                    = range l body (mkSt w (os.Remove (filepath.Join (filepath.Dir name)
                                                         (Name (info f))) x).2)).
    { assert (Hb : body f (mkSt w x)
                   = (Val tt, mkSt w (os.Remove (filepath.Join (filepath.Dir name)
                                                   (Name (info f))) x).2)).
      { unfold body, mbind, M_bind, mret, M_ret, syscall. simpl.
        destruct (os.Remove _ x). reflexivity. }
      cbn [range]. unfold mbind at 1, M_bind at 1. rewrite Hb. reflexivity. }
    rewrite Hstep.
    destruct (IH (mkSt w (os.Remove (filepath.Join (filepath.Dir name) (Name (info f))) x).2))
      as (H1 & H2 & H3).
    split; [exact H1 |]. split; [exact H2 |]. intros p Hp. apply H3. simpl.
    apply Remove_absent. exact Hp.
Qed.

Lemma drain_frame `{Gzip} (s : St) :
  obj (drain s).2 = obj s
  ∧ ∀ p, files (env s) !! p = None → files (env (drain s).2) !! p = None.
Proof.
  destruct s as [w x]. rewrite drain_unfold.
  destruct (bool_decide (MaxFiles w = MaxInt)); [simpl; auto |].
  pose proof (ReadDir_files (filepath.Dir (filename w)) x) as H1.
  destruct (ioutil.ReadDir _ x) as [[files|e] x1]; simpl in H1;
    [| simpl; split; [reflexivity | intros p Hp; rewrite H1; exact Hp]].
  destruct (collect (filename w) files []) as [frags|msg];
    [| simpl; split; [reflexivity | intros p Hp; rewrite H1; exact Hp]].
  cbv zeta.
  destruct (MaxFiles w <? _);
    [| simpl; split; [reflexivity | intros p Hp; rewrite H1; exact Hp]].
  destruct (MaxFiles w <? 0);
    [simpl; split; [reflexivity | intros p Hp; rewrite H1; exact Hp] |].
  unfold go.
  destruct (range_remove_frame (filename w) (drop (Z.to_nat (MaxFiles w)) (merge_sort byTime frags))
              (mkSt w x1)) as (_ & H2 & H3).
  cbv zeta in H2, H3.
  destruct (range _ _ (mkSt w x1)) as [r s']. simpl in *.
  split; [exact H2 |]. intros p Hp. apply H3. rewrite H1. exact Hp.
Qed.

(** ** Open on a free path, and open that fails *)


Lemma open_error_closed `{Gzip} (w : RotateWriter) (x : World) (e : Errno) (s' : St) :
  open (mkSt w x) = (Val (Some e), s') → fp (obj s') = None.
Proof.
  rewrite open_unfold.
  destruct (os.Stat (filename w) x) as [st x1].
  assert (Hcreate : (let '(f, err, x2) := os.Create (filename w) x1 in
                     (Val err, mkSt (set_fsize 0 (set_fp f w)) x2)) = (Val (Some e), s')
                    → fp (obj s') = None).
  { pose proof (Create_result (filename w) x1) as HC.
    destruct (os.Create (filename w) x1) as [[[h|] [e0|]] x2]; try contradiction;
      intros [= <- <-]; reflexivity. }
  assert (Happend : (let '(f, err, x2) := os.OpenFile_append (filename w) x1 in
                     match err, st with
                     | Some e, _ => (Val (Some e), mkSt (set_fp f w) x2)
                     | None, inl info => (Val None, mkSt (set_fsize (Size info) (set_fp f w)) x2)
                     | None, inr _ =>
                         (Panic "invalid memory address or nil pointer dereference",
                          mkSt (set_fp f w) x2)
                     end) = (Val (Some e), s')
                    → fp (obj s') = None).
  { pose proof (OpenFile_append_result (filename w) x1) as HO.
    destruct (os.OpenFile_append (filename w) x1) as [[[h|] [e0|]] x2]; try contradiction.
    - destruct st; discriminate.
    - intros [= <- <-]. reflexivity. }
  destruct st as [info|e0]; [exact Happend |].
  destruct e0; try exact Happend. exact Hcreate.
Qed.

(** ** Rename moves the source away *)

Lemma next_fault_renames (x : World) : renames (sys.next_fault x).2 = renames x.
Proof. unfold sys.next_fault. destruct (faults x); reflexivity. Qed.



(** ** Rotate, unfolded into its steps *)

Lemma rotate_unfold `{Gzip} (w : RotateWriter) (x : World) :
  rotate (mkSt w x) =
  let '(cerr, x1) := match fp w with
                     | Some h => os.Close (Some h) x
                     | None => (None, x)
                     end in
  let w1 := match fp w with Some _ => set_fp None w | None => w end in
  match cerr with
  | Some e => (Val (Some e), mkSt w1 x1)
  | None =>
      let '(st, x2) := os.Stat (filename w) x1 in
      match st with
      | inr _ => (drain;; open) (mkSt w1 x2)
      | inl _ =>
          let rot := filename w +:+ "." +:+ time.Format (clock x2) in
          let '(rerr, x3) := os.Rename (filename w) rot x2 in
          match rerr with
          | Some e => (Val (Some e), mkSt w1 x3)
          | None =>
              if Compress w then
                match compress rot (mkSt w1 x3) with
                | (Val None, s4) => (drain;; open) s4
                | (Val (Some e), s4) => (Val (Some e), s4)
                | (Panic msg, s4) => (Panic msg, s4)
                end
              else (drain;; open) (mkSt w1 x3)
          end
      end
  end.
Proof.
  unfold rotate, Now, load, assign, syscall. unfold mbind at 1 2, M_bind at 1 2. cbn [obj env].
  assert (Hname : ∀ w', filename (match fp w' with Some _ => set_fp None w' | None => w' end)
                        = filename w') by (intros w'; destruct (fp w'); reflexivity).
  assert (Hcomp : ∀ w', Compress (match fp w' with Some _ => set_fp None w' | None => w' end)
                        = Compress w') by (intros w'; destruct (fp w'); reflexivity).
  destruct (fp w) as [h|] eqn:Hfp.
  - unfold mbind at 1, M_bind at 1. unfold mbind at 1, M_bind at 1. cbn [obj env].
    destruct (os.Close (Some h) x) as [[e|] x1]; cbn [obj env mret M_ret]; [reflexivity |].
    unfold mbind at 1 2 3, M_bind at 1 2 3. cbn [obj env filename set_fp].
    destruct (os.Stat (filename w) x1) as [[i|e] x2]; cbn [obj env mret M_ret]; [| reflexivity].
    unfold mbind at 1 2, M_bind at 1 2. cbn [obj env clock filename set_fp].
    destruct (os.Rename _ _ x2) as [[e|] x3]; cbn [obj env mret M_ret]; [reflexivity |].
    unfold mbind at 1, M_bind at 1. cbn [obj env Compress set_fp].
    destruct (Compress w); [| reflexivity].
    destruct (compress _ _) as [[[e|]|msg] s4]; reflexivity.
  - cbn [mret M_ret]. unfold mbind at 1 2 3, M_bind at 1 2 3. cbn [obj env].
    destruct (os.Stat (filename w) x) as [[i|e] x2]; cbn [obj env mret M_ret]; [| reflexivity].
    unfold mbind at 1 2, M_bind at 1 2. cbn [obj env clock].
    destruct (os.Rename _ _ x2) as [[e|] x3]; cbn [obj env mret M_ret]; [reflexivity |].
    unfold mbind at 1, M_bind at 1. cbn [obj env].
    destruct (Compress w); [| reflexivity].
    destruct (compress _ _) as [[[e|]|msg] s4]; reflexivity.
Qed.

(** ** The tail of a rotation: sweep, then reopen *)



(** ** Rotate *)


(** ** Write *)

(** What [f.Write] reports is what it appended: a prefix of [out], whose
    length is the count. *)
Lemma Write_result (f : option OsFile) (out : list byte) (x : World) :
  let '(n, err, x') := os.Write f out x in
  0 ≤ n ≤ Z.of_nat (length out)
  ∧ (f = None → n = 0 ∧ err = Some ErrInvalid ∧ x' = x)
  ∧ (∀ h data mode,
       f = Some h → h ∈ opened x → files x !! fname h = Some (NFile data mode) →
       files x' !! fname h = Some (NFile (data ++ take (Z.to_nat n) out) mode)
       ∧ (err = None → n = Z.of_nat (length out))).
Proof.
  unfold os.Write. destruct f as [h|].
  2:{ split; [lia |]. split; [auto |]. intros; discriminate. }
  unfold sys.is_open. destruct (bool_decide (h ∈ opened x)) eqn:Hopen; simpl.
  2:{ split; [lia |]. split; [discriminate |]. intros h' d m [= <-] Hin.
      apply bool_decide_eq_false in Hopen. contradiction. }
  pose proof (next_fault_files x) as Hf.
  destruct (sys.next_fault x) as [flt x1]. simpl in Hf.
  assert (Hlen : (length (match flt with Some ft => take (f_done ft) out | None => out end)
                  ≤ length out)%nat).
  { destruct flt; [rewrite length_take; lia | lia]. }
  assert (Htake : take (Z.to_nat (Z.of_nat (length (match flt with
                                                    | Some ft => take (f_done ft) out
                                                    | None => out end)))) out
                  = match flt with Some ft => take (f_done ft) out | None => out end).
  { rewrite Nat2Z.id. destruct flt as [ft|].
    - rewrite length_take. destruct (Nat.le_gt_cases (f_done ft) (length out)).
      + rewrite Nat.min_l by lia. reflexivity.
      + rewrite Nat.min_r by lia. rewrite !take_ge by lia. reflexivity.
    - apply take_ge. lia. }
  destruct (files x1 !! fname h) as [[d m|]|] eqn:Hp; simpl;
    (split; [lia |]); (split; [discriminate |]);
    intros h' d' m' [= <-] _ Hp'; rewrite <- Hf, Hp in Hp'; try discriminate.
  injection Hp' as <- <-. rewrite lookup_insert_eq, Htake.
  split; [reflexivity |]. destruct flt; [discriminate | reflexivity].
Qed.

Lemma write_unfold `{Gzip} (out : list byte) (w : RotateWriter) (x : World) :
  write out (mkSt w x) =
  let '(n, err, x') := os.Write (fp w) out x in
  (Val (n, err), mkSt (set_fsize (wrap64 (fsize w + n)) w) x').
Proof.
  unfold write, load, assign, syscall, mbind, M_bind, mret, M_ret. simpl.
  destruct (os.Write (fp w) out x) as [[n err] x']. reflexivity.
Qed.

(** [Write], unfolded into its three steps. *)
Lemma Write_unfold `{Gzip} (w : RotateWriter) (x : World) (out : list byte) :
  let s := mkSt w x in
  let r1 := match fp w with
            | None => open s
            | Some _ => (Val None, s)
            end in
  let r2 := match r1 with
            | (Val _, s1) =>
                if MaxSize (obj s1) <? wrap64 (fsize (obj s1) + Z.of_nat (length out))
                then rotate s1
                else (Val None, s1)
            | (Panic msg, s1) => (Panic msg, s1)
            end in
  Write out s =
    match r2 with
    | (Val _, s2) =>
        let '(n, err, x3) := os.Write (fp (obj s2)) out (env s2) in
        (Val (n, err), mkSt (set_fsize (wrap64 (fsize (obj s2) + n)) (obj s2)) x3)
    | (Panic msg, s2) => (Panic msg, s2)
    end.
Proof.
  intros s r1 r2.
  unfold Write, load. unfold mbind at 1, M_bind at 1. cbn [obj env s].
  unfold r2, r1. clear r2 r1.
  assert (Htail : ∀ s1 : St,
    (sz ← (λ s0 : St, (Val (fsize (obj s0)), s0));
     maxSize ← (λ s0 : St, (Val (MaxSize (obj s0)), s0));
     (if maxSize <? wrap64 (sz + Z.of_nat (length out))
      then rotate;; mret tt else mret tt);;
     write out) s1
    = match (if MaxSize (obj s1) <? wrap64 (fsize (obj s1) + Z.of_nat (length out))
             then rotate s1 else (Val None, s1)) with
      | (Val _, s2) =>
          let '(n, err, x3) := os.Write (fp (obj s2)) out (env s2) in
          (Val (n, err), mkSt (set_fsize (wrap64 (fsize (obj s2) + n)) (obj s2)) x3)
      | (Panic msg, s2) => (Panic msg, s2)
      end).
  { intros s1. unfold mbind at 1 2 3, M_bind at 1 2 3. cbn [obj env].
    destruct (MaxSize (obj s1) <? _).
    - unfold mbind at 1, M_bind at 1.
      destruct (rotate s1) as [[e|msg] [w2 x2]]; [| reflexivity].
      cbn [mret M_ret obj env]. apply write_unfold.
    - cbn [mret M_ret]. destruct s1 as [w1 x1]. apply write_unfold. }
  destruct (fp w); cbv iota.
  + unfold mbind at 1, M_bind at 1. cbn [mret M_ret]. apply Htail.
  + assert (Ho : (open;; mret tt) s
                 = match open s with
                   | (Val _, s1) => (Val tt, s1)
                   | (Panic msg, s1) => (Panic msg, s1)
                   end).
    { unfold mbind, M_bind, mret, M_ret. destruct (open s) as [[e|msg] s1]; reflexivity. }
    unfold mbind at 1, M_bind at 1. rewrite Ho.
    destruct (open s) as [[e|msg] s1]; [apply Htail | reflexivity].
Qed.


(** ** Archive names *)

#[local] Arguments time.digit : simpl never.
#[local] Arguments time.pad2 : simpl never.
#[local] Arguments time.pad4 : simpl never.
#[local] Arguments time.zone : simpl never.
#[local] Arguments time.Format : simpl never.

Lemma string_app_cons (c : ascii) (a b : string) : String c a +:+ b = String c (a +:+ b).
Proof. reflexivity. Qed.

Lemma string_app_nil (b : string) : EmptyString +:+ b = b.
Proof. reflexivity. Qed.

Lemma string_app_inj_l (a b c : string) : a +:+ b = a +:+ c → b = c.
Proof.
  induction a as [|x a IH]; rewrite ?string_app_nil, ?string_app_cons; [auto |].
  intros [= Heq]. auto.
Qed.


Lemma string_app_assoc (a b c : string) : (a +:+ b) +:+ c = a +:+ (b +:+ c).
Proof.
  induction a as [|x a IH]; rewrite ?string_app_nil, ?string_app_cons; [reflexivity |].
  rewrite IH. reflexivity.
Qed.

Lemma nosep_app (a b : string) :
  filepath.nosep (a +:+ b) = filepath.nosep a && filepath.nosep b.
Proof.
  induction a as [|x a IH]; rewrite ?string_app_nil, ?string_app_cons; [reflexivity |].
  cbn [filepath.nosep]. rewrite IH, andb_assoc. reflexivity.
Qed.

Lemma digit_cases (n : nat) :
  ∃ k, (k < 10)%nat ∧ time.digit n = ascii_of_nat (48 + k).
Proof. exists (n mod 10)%nat. split; [apply Nat.mod_upper_bound; lia | reflexivity]. Qed.

Lemma digit_nosep (n : nat) : filepath.is_sep (time.digit n) = false.
Proof.
  destruct (digit_cases n) as (k & Hk & ->).
  do 10 (destruct k as [|k]; [reflexivity |]). lia.
Qed.

Lemma pad2_nosep (n : nat) : filepath.nosep (time.pad2 n) = true.
Proof. unfold time.pad2. cbn [filepath.nosep]. rewrite !digit_nosep. reflexivity. Qed.

Lemma pad4_nosep (n : nat) : filepath.nosep (time.pad4 n) = true.
Proof.
  unfold time.pad4, time.pad2. cbn [filepath.nosep]. rewrite !digit_nosep. reflexivity.
Qed.

Lemma zone_nosep (off : Z) : filepath.nosep (time.zone off) = true.
Proof.
  unfold time.zone. destruct (off =? 0); [reflexivity |].
  rewrite !nosep_app, !pad2_nosep. destruct (off <? 0); reflexivity.
Qed.

Lemma Format_nosep (now : time.Time) : filepath.nosep (time.Format now) = true.
Proof.
  unfold time.Format.
  rewrite !nosep_app, pad4_nosep, !pad2_nosep, zone_nosep. reflexivity.
Qed.

Lemma length_pad2 (n : nat) : String.length (time.pad2 n) = 2%nat.
Proof. reflexivity. Qed.

Lemma length_zone (off : Z) :
  String.length (time.zone off) = 1%nat ∨ String.length (time.zone off) = 6%nat.
Proof.
  unfold time.zone. destruct (off =? 0); [left; reflexivity | right].
  rewrite !length_string_app, !length_pad2. destruct (off <? 0); reflexivity.
Qed.

(** A formatted instant is 20 bytes long in UTC and 25 bytes long in any
    other zone. *)
Lemma length_Format (now : time.Time) :
  String.length (time.Format now) = 20%nat ∨ String.length (time.Format now) = 25%nat.
Proof.
  unfold time.Format. rewrite !length_string_app, !length_pad2.
  change (String.length (time.pad4 (time.year now))) with 4%nat.
  destruct (length_zone (time.offset now)) as [-> | ->]; [left | right]; reflexivity.
Qed.

Lemma Format_not_gz (a b : time.Time) : time.Format a ≠ time.Format b +:+ ".gz".
Proof.
  intros Heq. apply (f_equal String.length) in Heq. rewrite length_string_app in Heq.
  change (String.length ".gz") with 3%nat in Heq.
  destruct (length_Format a), (length_Format b); lia.
Qed.

(** *** The directory of an archive is the directory of the log *)

Lemma Split_nosep (s : string) :
  filepath.nosep s = true → filepath.Split s = (EmptyString, s).
Proof.
  induction s as [|c s IH]; simpl; [reflexivity |].
  intros [Hc Hs]%andb_true_iff. rewrite (IH Hs).
  destruct (filepath.is_sep c); [discriminate | reflexivity].
Qed.

Lemma Split_app_nosep (p s : string) :
  filepath.nosep s = true →
  filepath.Split (p +:+ s) = ((filepath.Split p).1, (filepath.Split p).2 +:+ s).
Proof.
  intros Hs. induction p as [|c p IH]; rewrite ?string_app_nil, ?string_app_cons.
  - apply Split_nosep. exact Hs.
  - cbn [filepath.Split]. rewrite IH. destruct (filepath.Split p) as [d f]. simpl.
    destruct d; [destruct (filepath.is_sep c) |]; reflexivity.
Qed.

Lemma Dir_app_nosep (p s : string) :
  filepath.nosep s = true → filepath.Dir (p +:+ s) = filepath.Dir p.
Proof. intros Hs. unfold filepath.Dir. rewrite (Split_app_nosep p s Hs). reflexivity. Qed.

Lemma Dir_archive (name : string) (now : time.Time) :
  filepath.Dir (name +:+ "." +:+ time.Format now) = filepath.Dir name.
Proof.
  apply Dir_app_nosep. change ("." +:+ time.Format now) with (String "." (time.Format now)).
  cbn [filepath.nosep]. rewrite Format_nosep. reflexivity.
Qed.

Lemma Dir_archive_gz (name : string) (now : time.Time) :
  filepath.Dir ((name +:+ "." +:+ time.Format now) +:+ ".gz") = filepath.Dir name.
Proof.
  rewrite string_app_assoc. apply Dir_app_nosep.
  rewrite nosep_app. change ("." +:+ time.Format now) with (String "." (time.Format now)).
  cbn [filepath.nosep]. rewrite Format_nosep. reflexivity.
Qed.

(** ** More system calls on a quiet system *)

Lemma is_open_true (x : World) (h : OsFile) : h ∈ opened x → sys.is_open x h = true.
Proof. intros Hin. unfold sys.is_open. apply bool_decide_eq_true_2. exact Hin. Qed.

Lemma Close_quiet (h : OsFile) (x : World) :
  faults x = [] → h ∈ opened x →
  os.Close (Some h) x = (None, set_opened (filter (λ g, g ≠ h) (opened x)) x).
Proof.
  intros Hq Hin. unfold os.Close. rewrite (is_open_true x h Hin). simpl.
  rewrite next_fault_quiet by exact Hq. reflexivity.
Qed.

Lemma Write_quiet (h : OsFile) (out : list byte) (x : World) data mode :
  faults x = [] → h ∈ opened x → files x !! fname h = Some (NFile data mode) →
  os.Write (Some h) out x =
    (Z.of_nat (length out), None,
     set_files (<[fname h := NFile (data ++ out) mode]> (files x)) x).
Proof.
  intros Hq Hin Hp. unfold os.Write. rewrite (is_open_true x h Hin). simpl.
  rewrite (next_fault_quiet x Hq), Hp. reflexivity.
Qed.

Lemma Rename_quiet (old new : string) (x : World) data mode :
  faults x = [] → files x !! old = Some (NFile data mode) →
  sys.is_dir x (filepath.Dir new) = true → files x !! new = None →
  os.Rename old new x =
    (None, mkWorld (<[new := NFile data mode]> (delete old (files x)))
                   (opened x) (next_fd x) (clock x) (faults x)
                   (renames x ++ [(old, new)])).
Proof.
  intros Hq Hp Hd Hn. unfold os.Rename.
  rewrite (next_fault_quiet x Hq), Hp, Hd, Hn. reflexivity.
Qed.





(** ** Open on a quiet system *)

Lemma open_quiet `{Gzip} (w : RotateWriter) (x : World) :
  faults x = [] → sys.is_dir x (filepath.Dir (filename w)) = true →
  files x !! filename w ≠ Some NDir →
  let h := mkFile (next_fd x) (filename w) in
  open (mkSt w x) =
    match files x !! filename w with
    | Some (NFile data mode) =>
        (Val None,
         mkSt (set_fsize (Z.of_nat (length data)) (set_fp (Some h) w))
              (mkWorld (files x) (h :: opened x) (S (next_fd x)) (clock x) (faults x)
                       (renames x)))
    | _ =>
        (Val None,
         mkSt (set_fsize 0 (set_fp (Some h) w))
              (mkWorld (<[filename w := NFile [] create_mode]> (files x)) (h :: opened x)
                       (S (next_fd x)) (clock x) (faults x) (renames x)))
    end.
Proof.
  intros Hq Hd Hnd h. rewrite open_unfold, (Stat_quiet _ x Hq).
  destruct (files x !! filename w) as [[data mode|]|] eqn:Hp; [| congruence |].
  - rewrite (OpenFile_append_quiet _ x data mode Hq Hp). reflexivity.
  - rewrite (Create_quiet _ x Hq Hd Hp). reflexivity.
Qed.

(** ** The history of renames only grows, whatever the script says *)

Ltac frame_renames :=
  repeat match goal with
         | |- context [sys.next_fault ?x] =>
             let Hr := fresh "Hr" in
             pose proof (next_fault_renames x) as Hr;
             destruct (sys.next_fault x) as [[?|] ?]; simpl in Hr
         | |- context [match ?e with _ => _ end] => destruct e
         end;
  simpl in *; try congruence.








Lemma Remove_renames path x : renames (os.Remove path x).2 = renames x.
Proof. unfold os.Remove. frame_renames. Qed.

Lemma ReadDir_renames dir x : renames (ioutil.ReadDir dir x).2 = renames x.
Proof. unfold ioutil.ReadDir. frame_renames. Qed.






Lemma range_remove_renames `{Gzip} (name : string) (l : list fragInfo) (s : St) :
  renames (env (range l (λ f : fragInfo,
             syscall (os.Remove (filepath.Join (filepath.Dir name) (Name (info f))));;
             mret tt) s).2) = renames (env s).
Proof.
  revert s. induction l as [|f l IH]; intros [w x]; [reflexivity |].
  assert (Hstep : range (f :: l) (λ f : fragInfo,
             syscall (os.Remove (filepath.Join (filepath.Dir name) (Name (info f))));;
             mret tt) (mkSt w x)
          = range l (λ f : fragInfo,
             syscall (os.Remove (filepath.Join (filepath.Dir name) (Name (info f))));;
             mret tt)
              (mkSt w (os.Remove (filepath.Join (filepath.Dir name) (Name (info f))) x).2)).
  { cbn [range]. unfold mbind at 1, M_bind at 1.
    unfold mbind at 1, M_bind at 1, mret at 1, M_ret at 1, syscall at 1. cbn [obj env].
    destruct (os.Remove _ x). reflexivity. }
  rewrite Hstep, IH. simpl. apply Remove_renames.
Qed.

Lemma drain_renames `{Gzip} (s : St) : renames (env (drain s).2) = renames (env s).
Proof.
  destruct s as [w x]. rewrite drain_unfold.
  destruct (bool_decide (MaxFiles w = MaxInt)); [reflexivity |].
  pose proof (ReadDir_renames (filepath.Dir (filename w)) x) as H1.
  destruct (ioutil.ReadDir _ x) as [[files|e] x1]; simpl in H1; [| exact H1].
  destruct (collect (filename w) files []) as [frags|msg]; [| exact H1].
  cbv zeta. destruct (MaxFiles w <? _); [| exact H1].
  destruct (MaxFiles w <? 0); [exact H1 |].
  unfold go.
  pose proof (range_remove_renames (filename w)
                (drop (Z.to_nat (MaxFiles w)) (merge_sort byTime frags)) (mkSt w x1)) as H2.
  destruct (range _ _ (mkSt w x1)) as [r s']. simpl in *. congruence.
Qed.



(** ** Reading the archives back *)




(** *** Archive names do not collide *)

Lemma archive_not_log (name rot : string) : archive_of name rot → rot ≠ name.
Proof.
  intros [now ->] Heq. apply (f_equal String.length) in Heq.
  rewrite !length_string_app in Heq. change (String.length ".") with 1%nat in Heq. lia.
Qed.

Lemma archive_gz_not_log (name rot : string) : archive_of name rot → rot +:+ ".gz" ≠ name.
Proof.
  intros [now ->] Heq. apply (f_equal String.length) in Heq.
  rewrite !length_string_app in Heq. change (String.length ".") with 1%nat in Heq. lia.
Qed.

Lemma archive_not_gz (name r rot : string) :
  archive_of name r → archive_of name rot → r ≠ rot +:+ ".gz".
Proof.
  intros [a ->] [b ->] Heq. rewrite !string_app_assoc in Heq.
  apply string_app_inj_l, string_app_inj_l in Heq. exact (Format_not_gz a b Heq).
Qed.





(** ** How the store stays kept *)





(** ** Compress and rotate on a quiet system *)





(** ** Write and the steps of a run *)




Lemma step_unfold `{Gzip} (c : time.Time * Op) (s : St) :
  step c s =
  let s0 := mkSt (obj s) (set_clock c.1 (env s)) in
  match c.2 with
  | OpWrite out =>
      match Write out s0 with
      | (Val (n, err), s') => (Val (RetWrite n err), s')
      | (Panic msg, s') => (Panic msg, s')
      end
  | OpRotate =>
      match Rotate s0 with
      | (Val err, s') => (Val (RetRotate err), s')
      | (Panic msg, s') => (Panic msg, s')
      end
  end.
Proof.
  unfold step, tick. unfold mbind at 1, M_bind at 1. cbv zeta.
  destruct c.2 as [out|]; unfold mbind, M_bind, mret, M_ret.
  - destruct (Write out _) as [[[n err]|msg] s']; reflexivity.
  - destruct (Rotate _) as [[err|msg] s']; reflexivity.
Qed.


Lemma run_cons `{Gzip} (c : time.Time * Op) (cs : list (time.Time * Op)) (s : St) :
  run (c :: cs) s =
  match step c s with
  | (Val r, s1) =>
      match run cs s1 with
      | (Val rs, s') => (Val (r :: rs), s')
      | (Panic msg, s') => (Panic msg, s')
      end
  | (Panic msg, s1) => (Panic msg, s1)
  end.
Proof.
  cbn [run]. unfold mbind, M_bind, mret, M_ret.
  destruct (step c s) as [[r|msg] s1]; [| reflexivity].
  destruct (run cs s1) as [[rs|msg] s']; reflexivity.
Qed.










(** ** No data is lost across rotations *)





(** ** Reading a timestamp back *)

Lemma digit_val_digit (n : nat) : time.digit_val (time.digit n) = Some (n mod 10)%nat.
Proof.
  unfold time.digit. generalize (Nat.mod_upper_bound n 10 ltac:(lia)).
  generalize (n mod 10)%nat. intros k Hk.
  do 10 (destruct k as [|k]; [reflexivity |]). lia.
Qed.

Lemma num_pad2 (n : nat) (rest : string) :
  (n < 100)%nat →
  time.num 2 (String (time.digit (n / 10)) (String (time.digit n) rest)) = Some (n, rest).
Proof.
  intros Hn. unfold time.num. cbn [time.num_acc].
  repeat (rewrite digit_val_digit; cbn [mbind option_bind]).
  do 2 f_equal.
  assert (n / 10 < 10)%nat by (apply Nat.Div0.div_lt_upper_bound; lia).
  rewrite (Nat.mod_small (n / 10)) by lia.
  pose proof (Nat.div_mod_eq n 10). lia.
Qed.

Lemma num_pad4 (n : nat) (rest : string) :
  (Z.of_nat n < 10000) →
  time.num 4 (String (time.digit (n / 1000)) (String (time.digit (n / 100))
               (String (time.digit (n / 10)) (String (time.digit n) rest))))
  = Some (n, rest).
Proof.
  intros Hn. unfold time.num. cbn [time.num_acc].
  repeat (rewrite digit_val_digit; cbn [mbind option_bind]).
  do 2 f_equal.
  assert (n / 1000 < 10)%nat by (apply Nat.Div0.div_lt_upper_bound; lia).
  rewrite (Nat.mod_small (n / 1000)) by lia.
  assert (H100 : (n / 100 = 10 * (n / 1000) + (n / 100) mod 10)%nat).
  { replace (n / 1000)%nat with (n / 100 / 10)%nat
      by (rewrite Nat.Div0.div_div; reflexivity).
    apply Nat.div_mod_eq. }
  assert (H10 : (n / 10 = 10 * (n / 100) + (n / 10) mod 10)%nat).
  { replace (n / 100)%nat with (n / 10 / 10)%nat
      by (rewrite Nat.Div0.div_div; reflexivity).
    apply Nat.div_mod_eq. }
  pose proof (Nat.div_mod_eq n 10). lia.
Qed.

Lemma lit_cons (c : ascii) (r : string) : time.lit c (String c r) = Some r.
Proof. unfold time.lit. rewrite decide_True; reflexivity. Qed.

Lemma frac_zone (off : Z) : time.frac (time.zone off) = Some (0, time.zone off).
Proof.
  unfold time.zone. destruct (off =? 0); [reflexivity |].
  destruct (off <? 0); reflexivity.
Qed.

Lemma parse_zone_zone (off : Z) :
  Z.abs off < 24 * 60 → time.parse_zone (time.zone off) = Some off.
Proof.
  intros Hoff. unfold time.zone.
  destruct (Z.eqb_spec off 0) as [->|Hne]; [reflexivity |].
  assert (Hh : (Z.to_nat (Z.abs off / 60) < 100)%nat)
    by (zify; Z.div_mod_to_equations; lia).
  assert (Hm : (Z.to_nat (Z.abs off mod 60) < 100)%nat)
    by (zify; Z.div_mod_to_equations; lia).
  assert (Hval : ∀ sg : ascii, sg ≠ "Z"%char → ∀ sgn : Z,
            (if decide (sg = "+"%char) then Some 1
             else if decide (sg = "-"%char) then Some (-1) else None) = Some sgn →
            sgn * Z.abs off = off →
            time.parse_zone
              (String sg (time.pad2 (Z.to_nat (Z.abs off / 60)) +:+ ":"
                          +:+ time.pad2 (Z.to_nat (Z.abs off mod 60))))
            = Some off).
  { intros sg Hsg sgn Hs Hmul.
    assert (Hunf : time.parse_zone
              (String sg (time.pad2 (Z.to_nat (Z.abs off / 60)) +:+ ":"
                          +:+ time.pad2 (Z.to_nat (Z.abs off mod 60))))
            = (sgn ← (if decide (sg = "+"%char) then Some 1
                      else if decide (sg = "-"%char) then Some (-1) else None);
               '(hh, r) ← time.num 2 (time.pad2 (Z.to_nat (Z.abs off / 60)) +:+ ":"
                                       +:+ time.pad2 (Z.to_nat (Z.abs off mod 60)));
               r ← time.lit ":" r;
               '(mm, r) ← time.num 2 r;
               match r with
               | EmptyString =>
                   if ((hh <? 24) && (mm <? 60))%nat
                   then Some (sgn * Z.of_nat (hh * 60 + mm))
                   else None
               | _ => None
               end)).
    { unfold time.parse_zone.
      destruct sg as [[] [] [] [] [] [] [] []]; reflexivity. }
    rewrite Hunf, Hs. cbn [mbind option_bind].
    unfold time.pad2 at 1. rewrite !string_app_cons, string_app_nil.
    rewrite (num_pad2 _ _ Hh). cbn [mbind option_bind].
    change (":" +:+ time.pad2 (Z.to_nat (Z.abs off mod 60)))
      with (String ":" (time.pad2 (Z.to_nat (Z.abs off mod 60)))).
    rewrite lit_cons. cbn [mbind option_bind].
    unfold time.pad2. rewrite ?string_app_nil. rewrite (num_pad2 _ _ Hm). cbn [mbind option_bind].
    assert (Hlt : ((Z.to_nat (Z.abs off / 60) <? 24)
                   && (Z.to_nat (Z.abs off mod 60) <? 60))%nat = true).
    { apply andb_true_iff. split; apply Nat.ltb_lt; zify; Z.div_mod_to_equations; lia. }
    rewrite Hlt. f_equal. transitivity (sgn * Z.abs off); [| exact Hmul].
    f_equal. zify. Z.div_mod_to_equations. lia. }
  destruct (Z.ltb_spec off 0).
  - apply (Hval "-"%char ltac:(discriminate) (-1)); [reflexivity | lia].
  - apply (Hval "+"%char ltac:(discriminate) 1); [reflexivity | lia].
Qed.

Lemma days_in_le (m y : nat) : (time.days_in m y ≤ 31)%nat.
Proof.
  unfold time.days_in.
  do 12 (destruct m as [|m]; [try destruct (time.is_leap y); lia |]). lia.
Qed.

Lemma in_range_bounds (now : time.Time) :
  time.in_range now = true →
  Z.of_nat (time.year now) < 10000
  ∧ (time.month now < 100)%nat ∧ (time.day now < 100)%nat
  ∧ (time.hour now < 100)%nat ∧ (time.minute now < 100)%nat
  ∧ (time.second now < 100)%nat
  ∧ Z.abs (time.offset now) < 24 * 60
  ∧ time.in_range (time.to_second now) = true.
Proof.
  intros Hr. pose proof Hr as Hr'. unfold time.in_range in Hr'.
  repeat (apply andb_true_iff in Hr' as [Hr' ?]).
  repeat match goal with
         | H : (_ <=? _)%nat = true |- _ => apply Nat.leb_le in H
         | H : (_ <? _)%nat = true |- _ => apply Nat.ltb_lt in H
         | H : (_ <=? _) = true |- _ => apply Z.leb_le in H
         | H : (_ <? _) = true |- _ => apply Z.ltb_lt in H
         end.
  pose proof (days_in_le (time.month now) (time.year now)).
  repeat split; try lia.
  unfold time.in_range, time.to_second. cbn [time.year time.month time.day time.hour
    time.minute time.second time.nsec time.offset].
  unfold time.in_range in Hr.
  repeat (apply andb_true_iff in Hr as [Hr ?]).
  repeat (apply andb_true_iff; split); auto.
Qed.

(** Parsing undoes formatting, to the second. *)
Lemma Parse_Format (now : time.Time) :
  time.in_range now = true → time.Parse (time.Format now) = Some (time.to_second now).
Proof.
  intros Hr.
  destruct (in_range_bounds now Hr) as (Hy & Hmo & Hd & Hh & Hmi & Hs & Hoff & Hr').
  unfold time.Parse, time.Format, time.pad4, time.pad2.
  repeat rewrite ?string_app_cons, ?string_app_nil.
  rewrite (num_pad4 _ _ Hy). cbn [mbind option_bind]. rewrite lit_cons. cbn [mbind option_bind].
  rewrite (num_pad2 _ _ Hmo). cbn [mbind option_bind]. rewrite lit_cons. cbn [mbind option_bind].
  rewrite (num_pad2 _ _ Hd). cbn [mbind option_bind]. rewrite lit_cons. cbn [mbind option_bind].
  rewrite (num_pad2 _ _ Hh). cbn [mbind option_bind]. rewrite lit_cons. cbn [mbind option_bind].
  rewrite (num_pad2 _ _ Hmi). cbn [mbind option_bind]. rewrite lit_cons. cbn [mbind option_bind].
  rewrite (num_pad2 _ _ Hs). cbn [mbind option_bind].
  rewrite frac_zone. cbn [mbind option_bind].
  rewrite (parse_zone_zone _ Hoff). cbn [mbind option_bind].
  fold (time.to_second now). rewrite Hr'. reflexivity.
Qed.

(** *** Slicing the timestamp out of an entry name *)

Lemma substring_prefix (b c : string) : substring 0 (String.length b) (b +:+ c) = b.
Proof.
  induction b as [|x b IH]; rewrite ?string_app_nil, ?string_app_cons.
  - destruct c; reflexivity.
  - cbn [String.length substring]. rewrite IH. reflexivity.
Qed.

Lemma substring_middle (a b c : string) :
  substring (String.length a) (String.length b) (a +:+ b +:+ c) = b.
Proof.
  induction a as [|x a IH]; rewrite ?string_app_nil, ?string_app_cons.
  - apply substring_prefix.
  - cbn [String.length substring]. exact IH.
Qed.

Lemma trim_seps_nosep (s : string) : filepath.nosep s = true → filepath.trim_seps s = s.
Proof.
  induction s as [|c s IH]; [reflexivity |]. cbn [filepath.nosep filepath.trim_seps].
  intros [Hc Hs]%andb_true_iff. rewrite (IH Hs).
  destruct s; [| reflexivity]. destruct (filepath.is_sep c); [discriminate | reflexivity].
Qed.

Lemma trim_seps_app_nosep (p s : string) :
  filepath.nosep s = true → s ≠ EmptyString → filepath.trim_seps (p +:+ s) = p +:+ s.
Proof.
  intros Hs Hne. induction p as [|c p IH]; rewrite ?string_app_nil, ?string_app_cons.
  - apply trim_seps_nosep. exact Hs.
  - cbn [filepath.trim_seps]. rewrite IH.
    destruct (p +:+ s) eqn:Heq; [| reflexivity].
    apply (f_equal String.length) in Heq. rewrite length_string_app in Heq.
    destruct s; [congruence | simpl in Heq; lia].
Qed.

Lemma Base_app_nosep (p s : string) :
  filepath.nosep s = true → s ≠ EmptyString →
  filepath.Base (p +:+ s) = (filepath.Split p).2 +:+ s.
Proof.
  intros Hs Hne. unfold filepath.Base.
  rewrite (trim_seps_app_nosep p s Hs Hne), (Split_app_nosep p s Hs). cbn [snd].
  assert (Hlen : ∀ q : string, (0 < String.length (q +:+ s))%nat).
  { intros q. rewrite length_string_app. destruct s; [congruence | simpl; lia]. }
  pose proof (Hlen p) as H1. pose proof (Hlen (filepath.Split p).2) as H2.
  destruct (p +:+ s); [simpl in H1; lia |].
  destruct ((filepath.Split p).2 +:+ s); [simpl in H2; lia | reflexivity].
Qed.

(** The name of an archive, plain or followed by a suffix such as
    [.gz], of a log whose path ends in a file name. *)
Lemma Name_archive (name sfx : string) (now : time.Time) (n : Node) :
  (filepath.Split name).2 = filepath.Base name → filepath.nosep sfx = true →
  Name (info_of ((name +:+ "." +:+ time.Format now) +:+ sfx) n)
  = (filepath.Base name +:+ ".") +:+ time.Format now +:+ sfx.
Proof.
  intros Hfile Hs. rewrite Name_info_of, <- Hfile.
  rewrite !string_app_assoc. apply Base_app_nosep.
  - rewrite !nosep_app, Format_nosep, Hs. reflexivity.
  - discriminate.
Qed.

(** The slice the sweep takes of the name of an archive made at an
    instant in a zone other than UTC parses to that instant, to the
    second, whether the archive was compressed or not. *)
Lemma archive_name_read_back (name sfx : string) (now : time.Time) (n : Node) :
  (filepath.Split name).2 = filepath.Base name →
  time.in_range now = true → time.offset now ≠ 0 → filepath.nosep sfx = true →
  slice (Name (info_of ((name +:+ "." +:+ time.Format now) +:+ sfx) n))
        (stamp_lo name) (stamp_hi name) ≫= time.Parse
  = Some (time.to_second now).
Proof.
  intros Hfile Hr Hoff Hs. rewrite (Name_archive name sfx now n Hfile Hs).
  assert (Hlen : String.length (time.Format now) = 25%nat).
  { destruct (length_Format now) as [H20|H25]; [| exact H25]. exfalso.
    unfold time.Format in H20. rewrite !length_string_app, !length_pad2 in H20.
    change (String.length (time.pad4 (time.year now))) with 4%nat in H20.
    unfold time.zone in H20. destruct (Z.eqb_spec (time.offset now) 0); [contradiction |].
    rewrite !length_string_app, !length_pad2 in H20.
    destruct (time.offset now <? 0); simpl in H20; lia. }
  assert (Hlo : stamp_lo name = String.length (filepath.Base name +:+ ".")).
  { unfold stamp_lo. rewrite length_string_app. reflexivity. }
  assert (Hslice : slice ((filepath.Base name +:+ ".") +:+ time.Format now +:+ sfx)
                         (stamp_lo name) (stamp_hi name) = Some (time.Format now)).
  { unfold slice. rewrite decide_True.
    - f_equal. replace (stamp_hi name - stamp_lo name)%nat with (String.length (time.Format now)).
      + rewrite Hlo. apply substring_middle.
      + rewrite Hlen. unfold stamp_hi, stamp_lo. change (String.length TimeFmt) with 25%nat. lia.
    - unfold stamp_hi, stamp_lo. change (String.length TimeFmt) with 25%nat.
      rewrite !length_string_app, Hlen. change (String.length ".") with 1%nat. lia. }
  rewrite Hslice. cbn [mbind option_bind]. apply Parse_Format. exact Hr.
Qed.

(** In UTC the name is too short for the slice, compressed or not. *)
Lemma archive_name_UTC_not_sliced (name sfx : string) (now : time.Time) (n : Node) :
  (filepath.Split name).2 = filepath.Base name →
  time.offset now = 0 → filepath.nosep sfx = true → (String.length sfx < 5)%nat →
  slice (Name (info_of ((name +:+ "." +:+ time.Format now) +:+ sfx) n))
        (stamp_lo name) (stamp_hi name) = None.
Proof.
  intros Hfile Hoff Hs Hshort. rewrite (Name_archive name sfx now n Hfile Hs).
  apply slice_none. unfold stamp_hi. change (String.length TimeFmt) with 25%nat.
  rewrite !length_string_app. change (String.length ".") with 1%nat.
  assert (Hlen : String.length (time.Format now) = 20%nat).
  { unfold time.Format. rewrite !length_string_app, !length_pad2.
    change (String.length (time.pad4 (time.year now))) with 4%nat.
    unfold time.zone. rewrite Hoff. reflexivity. }
  rewrite Hlen. lia.
Qed.

(** * Further properties of the code *)

(** ** Archive names, written by [rotate] and read by [drain] *)

Lemma Split_snd_nosep (p : string) : filepath.nosep (filepath.Split p).2 = true.
Proof.
  induction p as [|c p IH]; [reflexivity |]. cbn [filepath.Split].
  destruct (filepath.Split p) as [d f]. cbn [snd] in IH.
  destruct d; [destruct (filepath.is_sep c) eqn:Hc |]; cbn [snd filepath.nosep]; auto.
  rewrite Hc, IH. reflexivity.
Qed.

(** The round of the collecting loop on the entry of an archive made
    in a zone other than UTC. *)
Lemma collect_archive (name sfx : string) (now : time.Time) (d : list byte) (m : Z)
    (rest : list FileInfo) (acc : list fragInfo) :
  (filepath.Split name).2 = filepath.Base name →
  time.in_range now = true → time.offset now ≠ 0 →
  sfx = EmptyString ∨ sfx = ".gz" →
  let f := info_of ((name +:+ "." +:+ time.Format now) +:+ sfx) (NFile d m) in
  collect name (f :: rest) acc = collect name rest (acc ++ [mkFrag (time.to_second now) f]).
Proof.
  intros Hfile Hr Hoff Hsfx f.
  assert (Hs : filepath.nosep sfx = true) by (destruct Hsfx as [-> | ->]; reflexivity).
  pose proof (archive_name_read_back name sfx now (NFile d m) Hfile Hr Hoff Hs) as Hback.
  fold f in Hback.
  assert (Hne : Name f ≠ name).
  { unfold f. rewrite (Name_archive name sfx now (NFile d m) Hfile Hs), <- Hfile.
    intros Heq.
    assert (Hn : filepath.nosep name = true).
    { rewrite <- Heq, !nosep_app, Split_snd_nosep, Format_nosep, Hs. reflexivity. }
    rewrite (Split_nosep name Hn) in Heq. cbn [snd] in Heq.
    apply (f_equal String.length) in Heq. rewrite !length_string_app in Heq.
    change (String.length ".") with 1%nat in Heq. lia. }
  rewrite collect_cons. change (IsDir f) with false. cbv iota.
  rewrite decide_False by exact Hne.
  destruct (slice (Name f) (stamp_lo name) (stamp_hi name)) as [ts|]; [| discriminate].
  cbn [mbind option_bind] in Hback. rewrite Hback. reflexivity.
Qed.

(** X1. The names [rotate] and [compress] give archives are read back
    by the loop of [drain]: for a log path that ends in a file name, a
    listing made of archives of the log, plain or compressed, each made
    at a clock reading in a zone other than UTC, is collected entry by
    entry, in order, into fragments whose times are the instants of the
    rotations, to the second. *)
Theorem collect_reads_archive_back (name : string)
    (made : list (time.Time * bool * list byte * Z)) (acc : list fragInfo) :
  let entry := λ a : time.Time * bool * list byte * Z,
    info_of ((name +:+ "." +:+ time.Format a.1.1.1) +:+ (if a.1.1.2 then ".gz" else EmptyString))
            (NFile a.1.2 a.2) in
  (filepath.Split name).2 = filepath.Base name →
  Forall (λ a, time.in_range a.1.1.1 = true ∧ time.offset a.1.1.1 ≠ 0) made →
  collect name (entry <$> made) acc
  = Val (acc ++ ((λ a, mkFrag (time.to_second a.1.1.1) (entry a)) <$> made)).
Proof.
  intros entry Hfile Hall. revert acc.
  induction Hall as [|[[[now gz] d] m] made [Hr Hoff] Hall IH]; intros acc.
  - cbn. rewrite app_nil_r. reflexivity.
  - cbn [fmap list_fmap]. unfold entry at 1. cbn [fst snd].
    rewrite (collect_archive name (if gz then ".gz" else EmptyString) now d m _ acc Hfile Hr Hoff)
      by (destruct gz; auto).
    fold (entry <$> made). rewrite IH, <- app_assoc. reflexivity.
Qed.

(** Two archives of the test log, one second apart one hour east of
    UTC, the second one compressed. *)
Lemma collect_reads_archive_back_witness :
  let plain := info_of ((logFile +:+ "." +:+ time.Format (cet 0)) +:+ EmptyString)
                       (NFile (bytes "a") 420) in
  let packed := info_of ((logFile +:+ "." +:+ time.Format (cet 1)) +:+ ".gz") (NFile [] 420) in
  collect logFile [plain; packed] [] = Val [mkFrag (cet 0) plain; mkFrag (cet 1) packed].
Proof.
  intros plain packed.
  apply (collect_reads_archive_back logFile
           [(cet 0, false, bytes "a", 420); (cet 1, true, [], 420)] []).
  - reflexivity.
  - repeat constructor; discriminate.
Defined.

Lemma Format_to_second (a : time.Time) : time.Format (time.to_second a) = time.Format a.
Proof. reflexivity. Qed.

(** X2. Two rotations of a log get the same archive name exactly when
    their clock readings agree to the second, zone included: the name
    determines the reading up to its nanoseconds. *)
Theorem archive_names_agree_iff (name : string) (a b : time.Time) :
  time.in_range a = true → time.in_range b = true →
  name +:+ "." +:+ time.Format a = name +:+ "." +:+ time.Format b
  ↔ time.to_second a = time.to_second b.
Proof.
  intros Ha Hb. split.
  - intros Heq. apply string_app_inj_l in Heq. apply string_app_inj_l in Heq.
    apply (f_equal time.Parse) in Heq.
    rewrite (Parse_Format a Ha), (Parse_Format b Hb) in Heq. congruence.
  - intros Heq. rewrite <- (Format_to_second a), <- (Format_to_second b), Heq. reflexivity.
Qed.

(** Rotations one second apart, and rotations one nanosecond apart. *)
Lemma archive_names_agree_iff_witness :
  logFile +:+ "." +:+ time.Format (cet 0) ≠ logFile +:+ "." +:+ time.Format (cet 1)
  ∧ logFile +:+ "." +:+ time.Format (time.mkTime 2015 1 1 12 0 0 1 60)
    = logFile +:+ "." +:+ time.Format (cet 0).
Proof.
  split.
  - intros Heq.
    apply (archive_names_agree_iff logFile (cet 0) (cet 1) eq_refl eq_refl) in Heq.
    discriminate.
  - apply (archive_names_agree_iff logFile (time.mkTime 2015 1 1 12 0 0 1 60) (cet 0)
             eq_refl eq_refl).
    reflexivity.
Defined.


(** ** The collecting loop of the sweep *)

Lemma sliceable_cases (name : string) (f : FileInfo) :
  sliceable name f
  ∨ (IsDir f = false ∧ Name f ≠ name ∧ (String.length (Name f) < stamp_hi name)%nat).
Proof.
  unfold sliceable. destruct (IsDir f); [left; discriminate |].
  destruct (decide (Name f = name)) as [|Hne]; [left; contradiction |].
  destruct (le_lt_dec (stamp_hi name) (String.length (Name f))); [left; auto | right; auto].
Qed.

Lemma collect_unsliceable (name : string) (files : list FileInfo) (acc : list fragInfo) :
  ¬ Forall (sliceable name) files →
  collect name files acc = Panic "slice bounds out of range".
Proof.
  revert acc. induction files as [|f files IH]; intros acc Hn.
  - exfalso. apply Hn. constructor.
  - destruct (sliceable_cases name f) as [Hs | (Hd & Hne & Hlen)];
      [| apply collect_short; assumption].
    assert (Hrest : ¬ Forall (sliceable name) files).
    { intros Hall. apply Hn. constructor; assumption. }
    rewrite collect_cons.
    destruct (IsDir f) eqn:Hd; [apply IH, Hrest |].
    destruct (decide (Name f = name)) as [|Hne]; [apply IH, Hrest |].
    destruct (slice (Name f) (stamp_lo name) (stamp_hi name)) as [ts|]; [| reflexivity].
    destruct (time.Parse ts); apply IH, Hrest.
Qed.

(** X4. The loop of [drain] that collects the fragments panics exactly
    when the listing holds an entry, other than a directory and other
    than one named like the configured path, whose name is shorter than
    the slice taken of it; otherwise it yields, in the listing's order,
    the entries whose slice parses as a timestamp. *)
Theorem collect_panics_iff_unsliceable (name : string) (files : list FileInfo)
    (acc : list fragInfo) :
  (Forall (sliceable name) files ∧
   collect name files acc = Val (acc ++ omap (recognize name) files))
  ∨ (Exists (λ f, IsDir f = false ∧ Name f ≠ name
                  ∧ (String.length (Name f) < stamp_hi name)%nat) files
     ∧ collect name files acc = Panic "slice bounds out of range").
Proof.
  destruct (decide (Forall (sliceable name) files)) as [Hall|Hn].
  - left. split; [exact Hall | apply collect_sliceable; exact Hall].
  - right. split; [| apply collect_unsliceable; exact Hn].
    apply not_Forall_Exists in Hn; [| apply _].
    eapply Exists_impl; [exact Hn |]. intros f Hf. cbn in Hf.
    destruct (sliceable_cases name f) as [Hs|Hc]; [contradiction | exact Hc].
Qed.

(** ** The sweep and a negative [MaxFiles] *)

(** X5. With a negative [MaxFiles] the sweep panics whenever it gets to
    list the directory: the slice expression [frags[w.MaxFiles:]] is out
    of range for every number of fragments. Nothing has been removed by
    then. *)
Theorem drain_negative_MaxFiles_panics `{Gzip} (w : RotateWriter) (x : World) :
  MaxFiles w < 0 → faults x = [] → sys.is_dir x (filepath.Dir (filename w)) = true →
  drain (mkSt w x) = (Panic "slice bounds out of range", mkSt w x).
Proof.
  intros Hneg Hq Hd. rewrite drain_unfold.
  rewrite bool_decide_eq_false_2 by (rewrite MaxInt_value; lia).
  rewrite (ReadDir_quiet _ x Hq Hd).
  destruct (decide (Forall (sliceable (filename w)) (ioutil.listing x (filepath.Dir (filename w)))))
    as [Hall|Hn].
  - rewrite (collect_sliceable _ _ [] Hall). cbv zeta.
    destruct (Z.ltb_spec (MaxFiles w) (Z.of_nat (length (merge_sort byTime
               ([] ++ omap (recognize (filename w))
                           (ioutil.listing x (filepath.Dir (filename w)))))))) as [_|Hge];
      [| lia].
    destruct (Z.ltb_spec (MaxFiles w) 0); [reflexivity | lia].
  - rewrite (collect_unsliceable _ _ [] Hn). reflexivity.
Qed.

(** The writer of the tests with [MaxFiles = -1] over the empty log
    directory. *)
Lemma drain_negative_MaxFiles_panics_witness :
  drain (mkSt (test_writer 56 (-1) false) (fresh_world (cet 0)))
  = (Panic "slice bounds out of range",
     mkSt (test_writer 56 (-1) false) (fresh_world (cet 0))).
Proof.
  apply (drain_negative_MaxFiles_panics (test_writer 56 (-1) false) (fresh_world (cet 0)));
    [reflexivity | reflexivity | reflexivity].
Defined.

(** ** What the sweep never does *)

Lemma Remove_only (path : string) (x : World) :
  opened (os.Remove path x).2 = opened x
  ∧ ∀ q, files (os.Remove path x).2 !! q = files x !! q
         ∨ files (os.Remove path x).2 !! q = None.
Proof.
  unfold os.Remove.
  pose proof (next_fault_files x) as Hf. pose proof (next_fault_opened x) as Ho.
  destruct (sys.next_fault x) as [[ft|] x1]; cbn [fst snd] in *.
  - rewrite Hf, Ho. auto.
  - rewrite <- Hf, <- Ho.
    assert (Hdel : ∀ q, delete path (files x1) !! q = files x1 !! q
                        ∨ delete path (files x1) !! q = None).
    { intros q. destruct (decide (path = q)) as [->|Hne].
      - right. apply lookup_delete_eq.
      - left. apply lookup_delete_ne. exact Hne. }
    destruct (files x1 !! path) as [[d m|]|]; cbn; auto.
    destruct (sys.children x1 path); cbn; auto.
Qed.

Lemma range_remove_only `{Gzip} (name : string) (l : list fragInfo) (s : St) :
  let body := λ f : fragInfo,
    syscall (os.Remove (filepath.Join (filepath.Dir name) (Name (info f))));; mret tt in
  opened (env (range l body s).2) = opened (env s)
  ∧ ∀ q, files (env (range l body s).2) !! q = files (env s) !! q
         ∨ files (env (range l body s).2) !! q = None.
Proof.
  intros body. revert s. induction l as [|f l IH]; intros [w x].
  - cbn. auto.
  - assert (Hstep : range (f :: l) body (mkSt w x)
                    = range l body (mkSt w (os.Remove (filepath.Join (filepath.Dir name)
                                                         (Name (info f))) x).2)).
    { assert (Hb : body f (mkSt w x)
                   = (Val tt, mkSt w (os.Remove (filepath.Join (filepath.Dir name)
                                                   (Name (info f))) x).2)).
      { unfold body, mbind, M_bind, mret, M_ret, syscall. cbn [obj env].
        destruct (os.Remove _ x). reflexivity. }
      cbn [range]. unfold mbind at 1, M_bind at 1. rewrite Hb. reflexivity. }
    rewrite Hstep.
    destruct (IH (mkSt w (os.Remove (filepath.Join (filepath.Dir name) (Name (info f))) x).2))
      as (H1 & H2).
    destruct (Remove_only (filepath.Join (filepath.Dir name) (Name (info f))) x) as (H3 & H4).
    cbn [env] in *. split; [congruence |].
    intros q. destruct (H2 q) as [Hq|Hq]; [| auto].
    rewrite Hq. apply H4.
Qed.

Lemma ReadDir_opened (dir : string) (x : World) : opened (ioutil.ReadDir dir x).2 = opened x.
Proof.
  unfold ioutil.ReadDir. pose proof (next_fault_opened x) as Ho.
  destruct (sys.next_fault x) as [[ft|] x1]; cbn [snd] in *; [exact Ho |].
  destruct (files x1 !! dir) as [[d m|]|]; exact Ho.
Qed.

(** X6. Whatever the environment does, and also when it panics, the
    sweep leaves the writer's fields and the open descriptors alone,
    renames nothing, and neither creates a path nor changes what a path
    holds: after it every path holds what it held before, or nothing. *)
Theorem drain_only_removes `{Gzip} (s : St) :
  obj (drain s).2 = obj s
  ∧ opened (env (drain s).2) = opened (env s)
  ∧ renames (env (drain s).2) = renames (env s)
  ∧ ∀ p, files (env (drain s).2) !! p = files (env s) !! p
         ∨ files (env (drain s).2) !! p = None.
Proof.
  split; [apply drain_frame |]. split; [| split; [apply drain_renames |]].
  - destruct s as [w x]. rewrite drain_unfold.
    destruct (bool_decide (MaxFiles w = MaxInt)); [reflexivity |].
    pose proof (ReadDir_opened (filepath.Dir (filename w)) x) as H1.
    destruct (ioutil.ReadDir _ x) as [[files|e] x1]; cbn [snd] in H1; [| exact H1].
    destruct (collect (filename w) files []) as [frags|msg]; [| exact H1].
    cbv zeta. destruct (MaxFiles w <? _); [| exact H1].
    destruct (MaxFiles w <? 0); [exact H1 |].
    unfold go.
    destruct (range_remove_only (filename w)
                (drop (Z.to_nat (MaxFiles w)) (merge_sort byTime frags)) (mkSt w x1)) as (H2 & _).
    cbv zeta in H2.
    destruct (range _ _ (mkSt w x1)) as [r s']. cbn [snd env] in *. congruence.
  - destruct s as [w x]. rewrite drain_unfold. intros p.
    destruct (bool_decide (MaxFiles w = MaxInt)); [left; reflexivity |].
    pose proof (ReadDir_files (filepath.Dir (filename w)) x) as H1.
    destruct (ioutil.ReadDir _ x) as [[files|e] x1]; cbn [snd] in H1;
      [| left; cbn; rewrite H1; reflexivity].
    destruct (collect (filename w) files []) as [frags|msg];
      [| left; cbn; rewrite H1; reflexivity].
    cbv zeta. destruct (MaxFiles w <? _); [| left; cbn; rewrite H1; reflexivity].
    destruct (MaxFiles w <? 0); [left; cbn; rewrite H1; reflexivity |].
    unfold go.
    destruct (range_remove_only (filename w)
                (drop (Z.to_nat (MaxFiles w)) (merge_sort byTime frags)) (mkSt w x1)) as (_ & H2).
    cbv zeta in H2. specialize (H2 p).
    destruct (range _ _ (mkSt w x1)) as [r s']. cbn [snd env] in *.
    rewrite <- H1. exact H2.
Qed.

(** ** A second sweep finds nothing to remove *)

Lemma canonical_sub (x x' : World) :
  (∀ p n, files x' !! p = Some n → files x !! p = Some n) → canonical x → canonical x'.
Proof. intros Hsub Hc p n Hp. apply (Hc p n). apply Hsub. exact Hp. Qed.

Lemma listing_sub (x x' : World) (dir : string) (f : FileInfo) :
  (∀ p n, files x' !! p = Some n → files x !! p = Some n) →
  f ∈ ioutil.listing x' dir → f ∈ ioutil.listing x dir.
Proof.
  intros Hsub. rewrite !elem_of_listing. intros (p & n & Hp & Hne & Hd & ->).
  exists p, n. auto.
Qed.

(** X7. On a quiet system whose listing the loop can slice, after a
    sweep with [MaxFiles = K] at most [K] entries of the directory are
    recognized as archives, and sweeping again changes nothing. *)
Theorem drain_twice `{Gzip} (w : RotateWriter) (x : World) (K : nat) :
  MaxFiles w = Z.of_nat K → MaxFiles w ≠ MaxInt →
  faults x = [] → canonical x →
  sys.is_dir x (filepath.Dir (filename w)) = true →
  Forall (sliceable (filename w)) (ioutil.listing x (filepath.Dir (filename w))) →
  ∃ x',
    drain (mkSt w x) = (Val tt, mkSt w x')
    ∧ (length (omap (recognize (filename w))
                    (ioutil.listing x' (filepath.Dir (filename w)))) ≤ K)%nat
    ∧ drain (mkSt w x') = (Val tt, mkSt w x').
Proof.
  intros HK Hbound Hq Hc Hd Hsl.
  set (name := filename w) in *. set (dir := filepath.Dir name) in *.
  set (frags := omap (recognize name) (ioutil.listing x dir)).
  set (sorted := merge_sort byTime frags).
  assert (Hperm : sorted ≡ₚ frags) by apply merge_sort_Permutation.
  set (gone := sibling name ∘ info <$> drop K sorted).
  set (x' := set_files (foldr delete (files x) (rev gone)) x).
  (* every fragment is an entry of the directory, at the path the sweep removes *)
  assert (Hentry : ∀ g, g ∈ sorted →
            ∃ d m, files x !! sibling name (info g) = Some (NFile d m)).
  { intros g Hg. rewrite Hperm in Hg. apply list_elem_of_omap in Hg as (e & He & Hr).
    apply recognize_info in Hr as (Hi & Hnd & _).
    apply elem_of_listing in He as (p & n & Hp & _ & Hdp & ->).
    apply IsDir_info_of in Hnd as (d & m & ->).
    exists d, m. rewrite Hi. erewrite sibling_info_of; eauto. }
  assert (Hlook : ∀ p, files x' !! p = if decide (p ∈ gone) then None else files x !! p).
  { intros p. unfold x'. cbn [files set_files]. rewrite lookup_foldr_delete.
    destruct (decide (p ∈ rev gone)) as [Hin|Hnin]; destruct (decide (p ∈ gone)) as [Hin'|Hnin'];
      try reflexivity; exfalso.
    - apply Hnin'. apply list_elem_of_In, in_rev, list_elem_of_In. exact Hin.
    - apply Hnin. apply list_elem_of_In. rewrite <- in_rev. apply list_elem_of_In. exact Hin'. }
  assert (Hsub : ∀ p n, files x' !! p = Some n → files x !! p = Some n).
  { intros p n. rewrite Hlook. destruct (decide (p ∈ gone)); [discriminate | auto]. }
  (* the first sweep *)
  assert (Hfirst : drain (mkSt w x) = (Val tt, mkSt w x')).
  { rewrite drain_unfold, bool_decide_eq_false_2 by exact Hbound.
    fold name dir. rewrite (ReadDir_quiet dir x Hq Hd).
    rewrite (collect_sliceable name _ [] Hsl). cbn [app]. fold frags. cbv zeta. fold sorted.
    rewrite HK, Nat2Z.id.
    destruct (Z.ltb_spec (Z.of_nat K) (Z.of_nat (length sorted))) as [Hlt|Hge].
    - destruct (Z.ltb_spec (Z.of_nat K) 0) as [Hneg|_]; [lia |].
      unfold go, dir. rewrite (range_remove name w (drop K sorted) x Hq); [reflexivity |].
      apply Forall_forall. intros g Hg.
      destruct (Hentry g) as (d & m & Hp);
        [eapply elem_of_sublist; [exact Hg | apply sublist_drop] |].
      rewrite Hp. discriminate.
    - assert (Hnil : drop K sorted = []) by (apply drop_ge; lia).
      unfold x', gone. rewrite Hnil. cbn. destruct x; reflexivity. }
  (* the directory after it *)
  assert (Hq' : faults x' = []) by exact Hq.
  assert (Hc' : canonical x') by (eapply canonical_sub; eauto).
  assert (Hd' : sys.is_dir x' dir = true).
  { unfold sys.is_dir in *. rewrite Hlook.
    destruct (decide (dir ∈ gone)) as [Hin|]; [exfalso | exact Hd].
    apply list_elem_of_fmap in Hin as (g & Hg & Hin).
    destruct (Hentry g) as (d & m & Hp);
      [eapply elem_of_sublist; [exact Hin | apply sublist_drop] |].
    cbn in Hg. rewrite <- Hg in Hp. rewrite Hp in Hd. discriminate. }
  assert (Hsl' : Forall (sliceable name) (ioutil.listing x' dir)).
  { apply Forall_forall. intros f Hf. rewrite Forall_forall in Hsl. apply Hsl.
    eapply listing_sub; eauto. }
  set (frags' := omap (recognize name) (ioutil.listing x' dir)).
  assert (Hlen : (length frags' ≤ K)%nat).
  { assert (Hnd : NoDup (sibling name ∘ info <$> frags')).
    { rewrite list_fmap_compose.
      eapply sublist_NoDup; [apply (NoDup_listing_paths x' name Hc') |].
      apply fmap_sublist, info_omap_recognize. }
    assert (Hincl : ∀ p, p ∈ sibling name ∘ info <$> frags'
                         → p ∈ sibling name ∘ info <$> take K sorted).
    { intros p Hp. apply list_elem_of_fmap in Hp as (g & -> & Hg).
      apply list_elem_of_omap in Hg as (f & Hf & Hr).
      pose proof Hr as (Hi & _)%recognize_info.
      pose proof Hf as (q & n & Hq1 & _ & Hdq & ->)%elem_of_listing.
      assert (Hg : g ∈ sorted).
      { rewrite Hperm. apply list_elem_of_omap. exists (info_of q n). split; [| exact Hr].
        eapply listing_sub; eauto. }
      rewrite <- (take_drop K sorted) in Hg. apply elem_of_app in Hg as [Hg|Hg].
      - apply list_elem_of_fmap. exists g. auto.
      - exfalso.
        assert (Hpath : sibling name (info g) = q).
        { rewrite Hi. eapply sibling_info_of; eauto. }
        assert (Hin : q ∈ gone).
        { apply list_elem_of_fmap. exists g. cbn. auto. }
        rewrite Hlook, decide_True in Hq1 by exact Hin. discriminate. }
    apply (NoDup_submseteq _ _ Hnd) in Hincl. apply submseteq_length in Hincl.
    rewrite !length_fmap in Hincl. rewrite length_take in Hincl. lia. }
  exists x'. split; [exact Hfirst |]. split; [exact Hlen |].
  rewrite drain_unfold, bool_decide_eq_false_2 by exact Hbound.
  fold name dir. rewrite (ReadDir_quiet dir x' Hq' Hd').
  rewrite (collect_sliceable name _ [] Hsl'). cbn [app]. fold frags'. cbv zeta.
  rewrite HK.
  destruct (Z.ltb_spec (Z.of_nat K) (Z.of_nat (length (merge_sort byTime frags')))) as [Hlt|Hge];
    [| reflexivity].
  rewrite merge_sort_Permutation in Hlt. lia.
Qed.

(** The sweep with [MaxFiles = 1] over three archives, twice. *)
Lemma drain_twice_witness :
  ∃ x',
    drain (mkSt (test_writer 56 1 false) three_archives)
    = (Val tt, mkSt (test_writer 56 1 false) x')
    ∧ (length (omap (recognize logFile) (ioutil.listing x' (filepath.Dir logFile))) ≤ 1)%nat
    ∧ drain (mkSt (test_writer 56 1 false) x') = (Val tt, mkSt (test_writer 56 1 false) x').
Proof.
  apply (drain_twice (test_writer 56 1 false) three_archives 1).
  - reflexivity.
  - vm_compute. discriminate.
  - reflexivity.
  - apply (bool_decide_unpack _). vm_compute. exact I.
  - vm_compute. reflexivity.
  - apply (bool_decide_unpack _). vm_compute. exact I.
Defined.

(** ** The sweep and archives made in UTC *)

Lemma Name_archive_ne (name sfx : string) (now : time.Time) (n : Node) :
  (filepath.Split name).2 = filepath.Base name → filepath.nosep sfx = true →
  Name (info_of ((name +:+ "." +:+ time.Format now) +:+ sfx) n) ≠ name.
Proof.
  intros Hfile Hs. rewrite (Name_archive name sfx now n Hfile Hs), <- Hfile.
  intros Heq.
  assert (Hn : filepath.nosep name = true).
  { rewrite <- Heq, !nosep_app, Split_snd_nosep, Format_nosep, Hs. reflexivity. }
  rewrite (Split_nosep name Hn) in Heq. cbn [snd] in Heq.
  apply (f_equal String.length) in Heq. rewrite !length_string_app in Heq.
  change (String.length ".") with 1%nat in Heq. lia.
Qed.

(** X8. An archive made by a rotation at an instant in UTC, plain or
    compressed, makes every later sweep with a bounded [MaxFiles] panic:
    its timestamp ends in the letter Z, so its name is five bytes short
    of the slice the loop takes. The sweep removes nothing. *)
Theorem drain_panics_on_UTC_archive `{Gzip} (w : RotateWriter) (x : World)
    (now : time.Time) (sfx : string) (d : list byte) (m : Z) :
  MaxFiles w ≠ MaxInt → faults x = [] →
  sys.is_dir x (filepath.Dir (filename w)) = true →
  (filepath.Split (filename w)).2 = filepath.Base (filename w) →
  time.offset now = 0 → sfx = EmptyString ∨ sfx = ".gz" →
  files x !! ((filename w +:+ "." +:+ time.Format now) +:+ sfx) = Some (NFile d m) →
  drain (mkSt w x) = (Panic "slice bounds out of range", mkSt w x).
Proof.
  intros Hbound Hq Hd Hfile Hoff Hsfx Hp.
  set (name := filename w) in *.
  assert (Hs : filepath.nosep sfx = true) by (destruct Hsfx as [-> | ->]; reflexivity).
  assert (Hshort : (String.length sfx < 5)%nat) by (destruct Hsfx as [-> | ->]; cbn; lia).
  set (p := (name +:+ "." +:+ time.Format now) +:+ sfx) in *.
  assert (Hdir : filepath.Dir p = filepath.Dir name).
  { unfold p. rewrite string_app_assoc. apply Dir_app_nosep.
    rewrite nosep_app, Hs. change ("." +:+ time.Format now) with (String "." (time.Format now)).
    cbn [filepath.nosep]. rewrite Format_nosep. reflexivity. }
  assert (Hin : info_of p (NFile d m) ∈ ioutil.listing x (filepath.Dir name)).
  { apply elem_of_listing. exists p, (NFile d m). repeat split; auto.
    intros Heq. unfold sys.is_dir in Hd. rewrite <- Heq, Hp in Hd. discriminate. }
  rewrite drain_unfold, bool_decide_eq_false_2 by exact Hbound.
  fold name. rewrite (ReadDir_quiet _ x Hq Hd).
  rewrite collect_unsliceable; [reflexivity |].
  intros Hall. rewrite Forall_forall in Hall. specialize (Hall _ Hin).
  unfold sliceable in Hall.
  pose proof (archive_name_UTC_not_sliced name sfx now (NFile d m) Hfile Hoff Hs Hshort) as Hnone.
  fold p in Hnone.
  destruct (slice_some (Name (info_of p (NFile d m))) (stamp_lo name) (stamp_hi name))
    as [ts Hts].
  - unfold stamp_lo, stamp_hi. lia.
  - apply Hall; [reflexivity |]. apply Name_archive_ne; assumption.
  - congruence.
Qed.

(** The log directory with one archive made at 12:00:00 UTC. *)
Lemma drain_panics_on_UTC_archive_witness :
  let x := set_files {[ logDir := NDir;
                        logFile +:+ "." +:+ time.Format (utc 0) := NFile (bytes "a") 420 ]}
                     (fresh_world (utc 1)) in
  drain (mkSt (test_writer 56 10 false) x)
  = (Panic "slice bounds out of range", mkSt (test_writer 56 10 false) x).
Proof.
  intros x.
  apply (drain_panics_on_UTC_archive (test_writer 56 10 false) x (utc 0) EmptyString
           (bytes "a") 420).
  - vm_compute. discriminate.
  - reflexivity.
  - vm_compute. reflexivity.
  - reflexivity.
  - reflexivity.
  - left. reflexivity.
  - vm_compute. reflexivity.
Defined.

(** ** Compress, whatever the environment does *)




Lemma WriteFile_result (path : string) (data : list byte) (perm : Z) (x : World) :
  let '(err, x') := ioutil.WriteFile path data perm x in
  opened x' = opened x
  ∧ (∀ q, q ≠ path → files x' !! q = files x !! q)
  ∧ match err with
    | None => ∃ m', files x' !! path = Some (NFile data m')
    | Some _ => files x' = files x
    end.
Proof.
  unfold ioutil.WriteFile.
  pose proof (next_fault_files x) as Hf. pose proof (next_fault_opened x) as Ho.
  destruct (sys.next_fault x) as [[ft|] x1]; cbn [fst snd] in *.
  - rewrite Hf. auto.
  - rewrite <- Hf, <- Ho. destruct (negb _); [auto |].
    destruct (files x1 !! path) as [[d m|]|]; cbn; [| auto |].
    + split; [reflexivity |]. split; [| exists m; apply lookup_insert_eq].
      intros q Hq. apply lookup_insert_ne. congruence.
    + split; [reflexivity |]. split; [| exists perm; apply lookup_insert_eq].
      intros q Hq. apply lookup_insert_ne. congruence.
Qed.

Lemma Remove_result (path : string) (x : World) :
  opened (os.Remove path x).2 = opened x
  ∧ (∀ q, q ≠ path → files (os.Remove path x).2 !! q = files x !! q)
  ∧ (files (os.Remove path x).2 !! path = files x !! path
     ∨ files (os.Remove path x).2 !! path = None).
Proof.
  unfold os.Remove.
  pose proof (next_fault_files x) as Hf. pose proof (next_fault_opened x) as Ho.
  destruct (sys.next_fault x) as [[ft|] x1]; cbn [fst snd] in *.
  - rewrite Hf, Ho. auto.
  - rewrite <- Hf, <- Ho.
    assert (Hdel : ∀ q, q ≠ path → delete path (files x1) !! q = files x1 !! q).
    { intros q Hq. apply lookup_delete_ne. congruence. }
    destruct (files x1 !! path) as [[d m|]|] eqn:Hp; cbn.
    + split; [reflexivity |]. split; [exact Hdel |]. right. apply lookup_delete_eq.
    + destruct (sys.children x1 path); cbn.
      * split; [reflexivity |]. split; [exact Hdel |]. right. apply lookup_delete_eq.
      * auto.
    + auto.
Qed.




(** ** The size counter and the length of the log *)

Lemma open_tracked `{Gzip} (s : St) :
  match open s with
  | (Val _, s') => tracked s' ∧ filename (obj s') = filename (obj s)
  | (Panic _, _) => True
  end.
Proof.
  destruct s as [w x]. pose proof (open_outcome w x) as Hout.
  pose proof (open_error_closed w x) as Herr.
  destruct (open (mkSt w x)) as [[[e|]|msg] s']; [| | exact I].
  - destruct Hout as (Hn & _). split; [| exact Hn].
    intros h Hh. rewrite (Herr e s' eq_refl) in Hh. discriminate.
  - destruct Hout as (Hn & _ & _ & _ & h & data & mode & Hfp & Hh & Ho & Hf & Hz).
    split; [| exact Hn]. intros h' Hh'. rewrite Hfp in Hh'. injection Hh' as <-.
    rewrite Hn. eauto 10.
Qed.

Lemma drain_open_tracked `{Gzip} (s : St) :
  match (drain;; open) s with
  | (Val _, s') => tracked s' ∧ filename (obj s') = filename (obj s)
  | (Panic _, _) => True
  end.
Proof.
  destruct (drain_frame s) as [Hobj _]. unfold mbind, M_bind.
  destruct (drain s) as [[[]|msg] s1]; [| exact I]. cbn [snd] in Hobj.
  pose proof (open_tracked s1) as Ho. rewrite Hobj in Ho. exact Ho.
Qed.

Lemma closed_tracked (s : St) : fp (obj s) = None → tracked s.
Proof. intros Hfp h Hh. congruence. Qed.

Lemma rotate_tracked `{Gzip} (s : St) :
  match rotate s with
  | (Val _, s') => tracked s' ∧ filename (obj s') = filename (obj s)
  | (Panic _, _) => True
  end.
Proof.
  destruct s as [w x]. rewrite rotate_unfold. cbn [obj].
  set (w1 := match fp w with Some _ => set_fp None w | None => w end).
  assert (Hfp1 : fp w1 = None) by (unfold w1; destruct (fp w) eqn:E; [reflexivity | exact E]).
  assert (Hn1 : filename w1 = filename w) by (unfold w1; destruct (fp w); reflexivity).
  destruct (match fp w with Some h => os.Close (Some h) x | None => (None, x) end)
    as [[e|] x1].
  { split; [apply closed_tracked; exact Hfp1 | exact Hn1]. }
  destruct (os.Stat (filename w) x1) as [[i|e] x2].
  2:{ pose proof (drain_open_tracked (mkSt w1 x2)) as Ht. cbn [obj] in Ht.
      rewrite Hn1 in Ht. exact Ht. }
  cbv zeta. destruct (os.Rename _ _ x2) as [[e|] x3].
  { split; [apply closed_tracked; exact Hfp1 | exact Hn1]. }
  destruct (Compress w).
  - pose proof (compress_frame (filename w +:+ "." +:+ time.Format (clock x2)) (mkSt w1 x3))
      as [Hobj _].
    destruct (compress _ (mkSt w1 x3)) as [[[e|]|msg] s4]; cbn [snd obj] in Hobj; [| | exact I].
    + split; [apply closed_tracked; rewrite Hobj; exact Hfp1 | rewrite Hobj; exact Hn1].
    + pose proof (drain_open_tracked s4) as Ht. rewrite Hobj, Hn1 in Ht. exact Ht.
  - pose proof (drain_open_tracked (mkSt w1 x3)) as Ht. cbn [obj] in Ht.
    rewrite Hn1 in Ht. exact Ht.
Qed.

(** A write through a tracked writer, after the open and the rotation
    [Write] may have made. *)
Lemma write_tracked (out : list byte) (s2 : St) :
  tracked s2 →
  let '(n, err, x3) := os.Write (fp (obj s2)) out (env s2) in
  let s' := mkSt (set_fsize (wrap64 (fsize (obj s2) + n)) (obj s2)) x3 in
  Z.of_nat (length (content (env s') (filename (obj s')))) < 2 ^ 63 → tracked s'.
Proof.
  destruct s2 as [w2 x2]. cbn [obj env]. intros Ht.
  pose proof (Write_result (fp w2) out x2) as HW.
  assert (Ho : opened (os.Write (fp w2) out x2).2 = opened x2).
  { unfold os.Write. destruct (fp w2) as [h|]; [| reflexivity].
    destruct (negb (sys.is_open x2 h)); [reflexivity |].
    pose proof (next_fault_opened x2) as Hno.
    destruct (sys.next_fault x2) as [flt y]. cbn [snd] in Hno.
    destruct (files y !! fname h) as [[dd mm|]|]; exact Hno. }
  destruct (os.Write (fp w2) out x2) as [[n err] x3]. cbn [snd] in Ho.
  destruct HW as (Hn & _ & Hgrow).
  cbv zeta. cbn [obj env filename set_fsize]. intros Hsmall h Hh. cbn [fp set_fsize] in Hh.
  destruct (Ht h Hh) as (Hin & Hname & d & m & Hp & Hsz). cbn [obj env] in *.
  rewrite <- Hname in Hp.
  destruct (Hgrow h d m Hh Hin Hp) as (Hnew & _). rewrite Hname in Hnew.
  split; [rewrite Ho; exact Hin |]. split; [exact Hname |].
  exists (d ++ take (Z.to_nat n) out), m. split; [exact Hnew |].
  cbn [fsize set_fsize]. unfold content in Hsmall. rewrite Hnew in Hsmall.
  rewrite length_app, length_take in *. rewrite Hsz, wrap64_id by lia. lia.
Qed.

(** X10. The size counter tracks the length of the log under every
    pattern of failures. When the writer holds a handle, the handle is an
    open descriptor of the configured path and the counter is the length
    of the file there: [Open] establishes this whenever it returns, and
    [Rotate], [Close] and [Write] keep it whenever they return ([Write]
    as long as the log stays shorter than 2^63 bytes, the range of the
    counter). *)
Theorem counter_tracks_log `{Gzip} (s : St) (out : list byte) :
  tracked s →
  (∀ r s', Open s = (Val r, s') → tracked s')
  ∧ (∀ r s', Rotate s = (Val r, s') → tracked s')
  ∧ (∀ r s', Close s = (Val r, s') → tracked s')
  ∧ (∀ r s', Write out s = (Val r, s') →
       Z.of_nat (length (content (env s') (filename (obj s')))) < 2 ^ 63 → tracked s').
Proof.
  intros Ht. split; [| split; [| split]].
  - intros r s' Heq. pose proof (open_tracked s) as Ho. unfold Open in Heq.
    rewrite Heq in Ho. apply Ho.
  - intros r s' Heq. pose proof (rotate_tracked s) as Hr. unfold Rotate in Heq.
    rewrite Heq in Hr. apply Hr.
  - intros r s' Heq. apply closed_tracked. destruct s as [w x].
    destruct (fp w) as [h|] eqn:Hfp.
    + rewrite (Close_open w x h Hfp) in Heq. injection Heq as _ <-. reflexivity.
    + rewrite (Close_closed w x Hfp) in Heq. injection Heq as _ <-. exact Hfp.
  - intros r s'. destruct s as [w x]. rewrite Write_unfold. cbv zeta.
    assert (Htail : ∀ s1, tracked s1 →
      match (if MaxSize (obj s1) <? wrap64 (fsize (obj s1) + Z.of_nat (length out))
             then rotate s1 else (Val None, s1)) with
      | (Val _, s2) =>
          let '(n, err, x3) := os.Write (fp (obj s2)) out (env s2) in
          (Val (n, err), mkSt (set_fsize (wrap64 (fsize (obj s2) + n)) (obj s2)) x3)
      | (Panic msg, s2) => (Panic msg, s2)
      end = (Val r, s') →
      Z.of_nat (length (content (env s') (filename (obj s')))) < 2 ^ 63 → tracked s').
    { intros s1 Ht1.
      assert (H2 : match (if MaxSize (obj s1) <? wrap64 (fsize (obj s1) + Z.of_nat (length out))
                          then rotate s1 else (Val None, s1)) with
                   | (Val _, s2) => tracked s2
                   | (Panic _, _) => True
                   end).
      { destruct (MaxSize (obj s1) <? _); [| exact Ht1].
        pose proof (rotate_tracked s1) as Hr.
        destruct (rotate s1) as [[e|msg] s2]; [apply Hr | exact I]. }
      destruct (if MaxSize (obj s1) <? wrap64 (fsize (obj s1) + Z.of_nat (length out))
                then rotate s1 else (Val None, s1)) as [[e|msg] s2]; [| discriminate].
      pose proof (write_tracked out s2 H2) as Hw.
      destruct (os.Write (fp (obj s2)) out (env s2)) as [[n err] x3].
      intros [= _ <-]. exact Hw. }
    destruct (fp w) as [h|] eqn:Hfp.
    + apply (Htail (mkSt w x) Ht).
    + pose proof (open_tracked (mkSt w x)) as Ho.
      destruct (open (mkSt w x)) as [[e|msg] s1]; [| discriminate].
      apply (Htail s1). apply Ho.
Qed.

(** The writer of the tests after [Open] on the empty log directory. *)
Lemma counter_tracks_log_witness :
  tracked (Write (bytes "hello")
             (Open (mkSt (test_writer 56 10 false) (fresh_world (cet 0)))).2).2.
Proof.
  destruct (counter_tracks_log (Open (mkSt (test_writer 56 10 false) (fresh_world (cet 0)))).2
              (bytes "hello")) as (_ & _ & _ & HW).
  - intros h Hh. vm_compute in Hh. injection Hh as <-.
    split; [vm_compute; left |]. split; [reflexivity |].
    exists [], 420. split; vm_compute; reflexivity.
  - apply (HW (5, None)); vm_compute; reflexivity.
Defined.

(** ** Rotate on a quiet system *)

Lemma set_fp_closed (w : RotateWriter) : fp w = None → set_fp None w = w.
Proof. destruct w. cbn. intros ->. reflexivity. Qed.


(** The rest of a rotation with unbounded retention on a free path. *)
Lemma tail_quiet `{Gzip} (w : RotateWriter) (x : World) :
  MaxFiles w = MaxInt → faults x = [] →
  sys.is_dir x (filepath.Dir (filename w)) = true →
  files x !! filename w = None →
  (drain;; open) (mkSt w x)
  = (Val None,
     mkSt (set_fsize 0 (set_fp (Some (mkFile (next_fd x) (filename w))) w))
          (mkWorld (<[filename w := NFile [] create_mode]> (files x))
                   (mkFile (next_fd x) (filename w) :: opened x)
                   (S (next_fd x)) (clock x) (faults x) (renames x))).
Proof.
  intros Hmax Hq Hd Hp. unfold mbind, M_bind. rewrite (drain_unbounded w x Hmax).
  pose proof (open_quiet w x Hq Hd) as Ho. cbv zeta in Ho. rewrite Hp in Ho.
  apply Ho. discriminate.
Qed.




(** ** Write across the threshold *)



(** ** Rotate when there is no log *)

(** X13. A rotation that finds no file at the configured path archives
    nothing: on a quiet system, with unbounded retention, it renames
    nothing and creates the log, empty, leaving every other path as it
    was. *)
Theorem Rotate_without_log `{Gzip} (w : RotateWriter) (x : World) :
  MaxFiles w = MaxInt → faults x = [] →
  (∀ h, fp w = Some h → h ∈ opened x) →
  files x !! filename w = None →
  sys.is_dir x (filepath.Dir (filename w)) = true →
  ∃ h x',
    Rotate (mkSt w x) = (Val None, mkSt (set_fsize 0 (set_fp (Some h) w)) x')
    ∧ h ∈ opened x' ∧ fname h = filename w
    ∧ renames x' = renames x
    ∧ files x' = <[filename w := NFile [] create_mode]> (files x).
Proof.
  intros Hmax Hq Hh Hp Hd. unfold Rotate. rewrite rotate_unfold.
  set (w1 := match fp w with Some _ => set_fp None w | None => w end).
  assert (Hw1 : w1 = set_fp None w).
  { unfold w1. destruct (fp w) eqn:E; [reflexivity | symmetry; apply set_fp_closed; exact E]. }
  assert (Hstep1 : ∃ x1, match fp w with
                          | Some h => os.Close (Some h) x
                          | None => (None, x)
                          end = (None, x1)
                         ∧ files x1 = files x ∧ renames x1 = renames x
                         ∧ faults x1 = [] ∧ clock x1 = clock x).
  { destruct (fp w) as [h|] eqn:Hfp; [| exists x; auto].
    rewrite (Close_quiet h x Hq (Hh h eq_refl)). eexists. split; [reflexivity |]. cbn. auto. }
  destruct Hstep1 as (x1 & -> & Hf1 & Hr1 & Hq1 & Hcl1).
  rewrite (Stat_quiet (filename w) x1 Hq1), Hf1, Hp, Hw1.
  assert (Hd1 : sys.is_dir x1 (filepath.Dir (filename (set_fp None w))) = true).
  { unfold sys.is_dir in *. rewrite Hf1. exact Hd. }
  assert (Hp1 : files x1 !! filename (set_fp None w) = None) by (rewrite Hf1; exact Hp).
  cbv zeta. rewrite (tail_quiet (set_fp None w) x1 Hmax Hq1 Hd1 Hp1).
  exists (mkFile (next_fd x1) (filename w)). eexists. split; [reflexivity |].
  cbn. split; [left |]. split; [reflexivity |]. split; [exact Hr1 |]. rewrite Hf1. reflexivity.
Qed.

(** A writer that was never opened, over the empty log directory. *)
Lemma Rotate_without_log_witness :
  ∃ h x',
    Rotate (mkSt (test_writer 56 MaxInt true) (fresh_world (cet 0)))
    = (Val None, mkSt (set_fsize 0 (set_fp (Some h) (test_writer 56 MaxInt true))) x')
    ∧ renames x' = []
    ∧ files x' = <[logFile := NFile [] create_mode]> {[ logDir := NDir ]}.
Proof.
  destruct (Rotate_without_log (test_writer 56 MaxInt true) (fresh_world (cet 0)))
    as (h & x' & Hrun & _ & _ & Hr & Hf).
  - reflexivity.
  - reflexivity.
  - intros h Hh. discriminate.
  - reflexivity.
  - vm_compute. reflexivity.
  - exists h, x'. auto.
Defined.

(** ** Write after Close *)

(** X14. A writer is not spent by [Close]: the next [Write] opens the
    log again and appends. On a quiet system, [Close] followed by a
    [Write] that fits leaves the log with its old bytes followed by the
    payload, and the counter, whatever it was, at the log's new length.
    The descriptor the writer held before [Close] is still open
    afterwards, beside the new one. *)
Theorem Close_then_Write_reopens `{Gzip} (w : RotateWriter) (x : World) (out : list byte)
    (d : list byte) (m : Z) :
  faults x = [] →
  files x !! filename w = Some (NFile d m) →
  Z.of_nat (length d) + Z.of_nat (length out) ≤ MaxSize w →
  Z.of_nat (length d) + Z.of_nat (length out) < 2 ^ 63 →
  let h := mkFile (next_fd x) (filename w) in
  (Close;; Write out) (mkSt w x)
  = (Val (Z.of_nat (length out), None),
     mkSt (set_fsize (Z.of_nat (length d) + Z.of_nat (length out)) (set_fp (Some h) w))
          (mkWorld (<[filename w := NFile (d ++ out) m]> (files x))
                   (h :: opened x) (S (next_fd x)) (clock x) (faults x) (renames x))).
Proof.
  intros Hq Hp Hfit Hsmall h.
  assert (Hclose : ∃ w0, Close (mkSt w x) = (Val (fp w ≫= λ _, Some ErrInvalid), mkSt w0 x)
                         ∧ fp w0 = None ∧ filename w0 = filename w
                         ∧ MaxSize w0 = MaxSize w ∧ set_fp (Some h) w0 = set_fp (Some h) w).
  { destruct (fp w) as [h0|] eqn:Hfp.
    - exists (set_fp None w). rewrite (Close_open w x h0 Hfp). auto.
    - exists w. rewrite (Close_closed w x Hfp). auto. }
  destruct Hclose as (w0 & Hc & Hfp0 & Hn0 & Hm0 & Hset).
  unfold mbind at 1, M_bind at 1. rewrite Hc.
  destruct (fp w ≫= λ _, Some ErrInvalid); cbv iota beta.
  all: rewrite Write_unfold; cbv zeta; rewrite Hfp0.
  all: rewrite open_unfold, (Stat_quiet _ x Hq), Hn0, Hp;
    rewrite (OpenFile_append_quiet _ x d m Hq Hp); cbn [info_of Size obj env fsize set_fsize
      MaxSize set_fp fp].
  all: rewrite Hm0, (wrap64_id (Z.of_nat (length d) + Z.of_nat (length out))) by lia.
  all: destruct (Z.ltb_spec (MaxSize w) (Z.of_nat (length d) + Z.of_nat (length out)));
    [lia |].
  all: fold h; rewrite (Write_quiet h out _ d m); [| exact Hq | left | exact Hp].
  all: cbn [fname h obj env fsize set_fsize set_fp]; rewrite wrap64_id by lia;
    rewrite <- Hset; reflexivity.
Qed.

(** The writer of the tests, opened on a log that holds one letter,
    closed, and written to. *)
Lemma Close_then_Write_reopens_witness :
  let x := set_files {[ logDir := NDir; logFile := NFile (bytes "a") 420 ]} (fresh_world (cet 0)) in
  let s := (Open (mkSt (test_writer 56 10 false) x)).2 in
  ∃ s', (Close;; Write (bytes "b")) s = (Val (1, None), s')
        ∧ files (env s') !! logFile = Some (NFile (bytes "ab") 420)
        ∧ opened (env s') = [mkFile 4 logFile; mkFile 3 logFile].
Proof.
  intros x s.
  pose proof (Close_then_Write_reopens (obj s) (env s) (bytes "b") (bytes "a") 420) as Hrun.
  eexists. split; [apply Hrun |].
  - reflexivity.
  - vm_compute. reflexivity.
  - vm_compute. discriminate.
  - vm_compute. reflexivity.
  - split; vm_compute; reflexivity.
Defined.

(** ** Where archives are put *)

(** X15. The archive of a log, plain or compressed, is put in the
    directory of the log, which is the directory the sweep lists; it
    never takes the name of the log, and the compressed archive of one
    rotation never takes the name of the plain archive of another. *)
Theorem archive_beside_log (name : string) (a b : time.Time) :
  let rot := name +:+ "." +:+ time.Format a in
  filepath.Dir rot = filepath.Dir name
  ∧ filepath.Dir (rot +:+ ".gz") = filepath.Dir name
  ∧ rot ≠ name ∧ rot +:+ ".gz" ≠ name
  ∧ name +:+ "." +:+ time.Format b ≠ rot +:+ ".gz".
Proof.
  intros rot.
  assert (Ha : archive_of name rot) by (exists a; reflexivity).
  assert (Hb : archive_of name (name +:+ "." +:+ time.Format b)) by (exists b; reflexivity).
  split; [apply Dir_archive |]. split; [apply Dir_archive_gz |].
  split; [apply archive_not_log; exact Ha |].
  split; [apply archive_gz_not_log; exact Ha |].
  apply (archive_not_gz name _ rot Hb Ha).
Qed.

(** ** A log found at start-up *)

(** X16. What the test [TestOpen] checks, for every log and payload: on
    a quiet system [NewRotateWriter] on a path that names a regular file
    leaves the file as it is, and a first [Write] that keeps the log
    within the default [MaxSize] appends the payload to what was there. *)
Theorem first_Write_appends_to_found_log `{Gzip} (name : string) (x : World)
    (out d : list byte) (m : Z) :
  faults x = [] →
  files x !! name = Some (NFile d m) →
  Z.of_nat (length d) + Z.of_nat (length out) ≤ DefaultMaxSize →
  ∃ w x1 s',
    NewRotateWriter name x = (Val (Some w), x1)
    ∧ files x1 = files x
    ∧ fsize w = Z.of_nat (length d)
    ∧ Write out (mkSt w x1) = (Val (Z.of_nat (length out), None), s')
    ∧ files (env s') = <[name := NFile (d ++ out) m]> (files x)
    ∧ fsize (obj s') = Z.of_nat (length (d ++ out)).
Proof.
  intros Hq Hp Hfit.
  assert (Hmax : DefaultMaxSize < 2 ^ 63) by (rewrite DefaultMaxSize_value; lia).
  set (w0 := mkWriter name DefaultMaxSize DefaultMaxFiles true None 0).
  set (h := mkFile (next_fd x) name).
  assert (Hopen : Open (mkSt w0 x)
                  = (Val None,
                     mkSt (set_fsize (Z.of_nat (length d)) (set_fp (Some h) w0))
                          (mkWorld (files x) (h :: opened x) (S (next_fd x)) (clock x)
                                   (faults x) (renames x)))).
  { unfold Open. rewrite open_unfold. cbn [filename w0].
    rewrite (Stat_quiet name x Hq), Hp.
    rewrite (OpenFile_append_quiet name x d m Hq Hp). reflexivity. }
  assert (Hnew : NewRotateWriter name x
                 = (Val (Some (set_fsize (Z.of_nat (length d)) (set_fp (Some h) w0))),
                    mkWorld (files x) (h :: opened x) (S (next_fd x)) (clock x)
                            (faults x) (renames x))).
  { unfold NewRotateWriter. fold w0. rewrite Hopen. reflexivity. }
  rewrite Hnew. do 2 eexists. eexists. split; [reflexivity |].
  split; [reflexivity |]. split; [reflexivity |].
  rewrite Write_unfold. cbv zeta. cbn [fp set_fsize set_fp obj env MaxSize fsize w0].
  rewrite (wrap64_id (Z.of_nat (length d) + Z.of_nat (length out))) by lia.
  destruct (Z.ltb_spec DefaultMaxSize (Z.of_nat (length d) + Z.of_nat (length out))); [lia |].
  cbn [obj env fp set_fsize set_fp fsize].
  rewrite (Write_quiet h out _ d m); [| exact Hq | left | exact Hp].
  split; [reflexivity |]. cbn [env obj files set_files fname h fsize set_fsize].
  split; [reflexivity |]. rewrite length_app, wrap64_id by lia. lia.
Qed.

(** The test itself: the log holds foo, the payload is bar. *)
Lemma first_Write_appends_to_found_log_witness :
  let x := set_files {[ logDir := NDir; logFile := NFile (bytes "foo") 420 ]}
                     (fresh_world (cet 0)) in
  ∃ w x1 s',
    NewRotateWriter logFile x = (Val (Some w), x1)
    ∧ Write (bytes "bar") (mkSt w x1) = (Val (3, None), s')
    ∧ files (env s') !! logFile = Some (NFile (bytes "foobar") 420).
Proof.
  intros x.
  destruct (first_Write_appends_to_found_log logFile x (bytes "bar") (bytes "foo") 420)
    as (w & x1 & s' & Hnew & _ & _ & Hrun & Hf & _).
  - reflexivity.
  - vm_compute. reflexivity.
  - vm_compute. discriminate.
  - exists w, x1, s'. split; [exact Hnew |]. split; [exact Hrun |].
    rewrite Hf. apply lookup_insert_eq.
Defined.

(** ** When open panics *)

(** X17. [open] uses the file information of [os.Stat] without looking
    at the error of [os.Stat] beyond the test for a missing file: it
    panics on the nil information exactly when [os.Stat] fails with an
    error other than not-exist and the [os.OpenFile] that follows
    succeeds. The handle is assigned before the panic, the size counter
    is not. Such a run exists: the path is there and a single call of
    [os.Stat] is refused. *)
Theorem open_panics_iff `{Gzip} (w : RotateWriter) (x : World) :
  ((∃ msg s', open (mkSt w x) = (Panic msg, s'))
   ↔ ∃ e x1 f x2, os.Stat (filename w) x = (inr e, x1) ∧ e ≠ ENOENT
                  ∧ os.OpenFile_append (filename w) x1 = (f, None, x2))
  ∧ (∀ msg s', open (mkSt w x) = (Panic msg, s') →
       is_Some (fp (obj s')) ∧ fsize (obj s') = fsize w)
  ∧ (let y := set_faults [Some (mkFault EACCES 0)]
                (set_files {[ logDir := NDir; logFile := NFile [] 420 ]} (fresh_world (cet 0))) in
     (open (mkSt (test_writer 56 10 false) y)).1
     = Panic "invalid memory address or nil pointer dereference").
Proof.
  split; [| split; [| vm_compute; reflexivity]].
  - rewrite open_unfold.
    destruct (os.Stat (filename w) x) as [[i|e] x1].
    + destruct (os.OpenFile_append (filename w) x1) as [[f [e0|]] x2]; split.
      * intros (msg & s' & Heq). discriminate.
      * intros (e & y1 & f' & y2 & Heq & _). discriminate.
      * intros (msg & s' & Heq). discriminate.
      * intros (e & y1 & f' & y2 & Heq & _). discriminate.
    + assert (Happ : e ≠ ENOENT →
        ((∃ msg s',
            (let '(f, err, x2) := os.OpenFile_append (filename w) x1 in
             match err, (inr e : FileInfo + Errno) with
             | Some e0, _ => (Val (Some e0), mkSt (set_fp f w) x2)
             | None, inl info => (Val None, mkSt (set_fsize (Size info) (set_fp f w)) x2)
             | None, inr _ =>
                 (Panic "invalid memory address or nil pointer dereference",
                  mkSt (set_fp f w) x2)
             end) = (Panic msg, s'))
         ↔ ∃ e' y1 f y2, (inr e : FileInfo + Errno, x1) = (inr e', y1) ∧ e' ≠ ENOENT
                         ∧ os.OpenFile_append (filename w) y1 = (f, None, y2))).
      { intros Hne. destruct (os.OpenFile_append (filename w) x1) as [[f [e0|]] x2] eqn:HO; split.
        - intros (msg & s' & Heq). discriminate.
        - intros (e' & y1 & f' & y2 & [= <- <-] & _ & HO'). rewrite HO in HO'. discriminate.
        - intros _. exists e, x1, f, x2. auto.
        - intros _. eauto. }
      destruct e; try (apply Happ; discriminate).
      destruct (os.Create (filename w) x1) as [[f err] x2]. split.
      * intros (msg & s' & Heq). discriminate.
      * intros (e' & y1 & f' & y2 & [= <- <-] & Hne & _). contradiction.
  - intros msg s'. rewrite open_unfold.
    destruct (os.Stat (filename w) x) as [[i|e] x1].
    + destruct (os.OpenFile_append (filename w) x1) as [[f [e0|]] x2]; discriminate.
    + assert (Happ :
        (let '(f, err, x2) := os.OpenFile_append (filename w) x1 in
         match err, (inr e : FileInfo + Errno) with
         | Some e0, _ => (Val (Some e0), mkSt (set_fp f w) x2)
         | None, inl info => (Val None, mkSt (set_fsize (Size info) (set_fp f w)) x2)
         | None, inr _ =>
             (Panic "invalid memory address or nil pointer dereference",
              mkSt (set_fp f w) x2)
         end) = (Panic msg, s') → is_Some (fp (obj s')) ∧ fsize (obj s') = fsize w).
      { pose proof (OpenFile_append_result (filename w) x1) as HO.
        destruct (os.OpenFile_append (filename w) x1) as [[[h|] [e0|]] x2];
          try contradiction; try discriminate.
        intros [= _ <-]. cbn. eauto. }
      destruct e; try exact Happ.
      destruct (os.Create (filename w) x1) as [[f err] x2]. discriminate.
Qed.

(** ** The first rotation in a directory that holds only the log *)















(** ** The sweep does not look at the start of a name *)

Lemma slice_middle (a b c : string) :
  slice (a +:+ b +:+ c) (String.length a) (String.length a + String.length b) = Some b.
Proof.
  unfold slice. rewrite decide_True by (rewrite !length_string_app; lia).
  f_equal. replace (String.length a + String.length b - String.length a)%nat
    with (String.length b) by lia.
  apply substring_middle.
Qed.

Lemma length_Format_zone (now : time.Time) :
  time.offset now ≠ 0 → String.length (time.Format now) = String.length TimeFmt.
Proof.
  intros Hoff. change (String.length TimeFmt) with 25%nat.
  unfold time.Format. rewrite !length_string_app, !length_pad2.
  change (String.length (time.pad4 (time.year now))) with 4%nat.
  unfold time.zone. destruct (Z.eqb_spec (time.offset now) 0); [contradiction |].
  rewrite !length_string_app, !length_pad2. destruct (time.offset now <? 0); reflexivity.
Qed.

(** X19. The loop of [drain] recognizes an entry by the position of the
    timestamp alone: whatever the first [len(base)+1] bytes of a name
    are, an entry that carries a timestamp of a zone other than UTC
    behind them is collected as a fragment of this log. The archive of
    another log whose base name has the same length is such an entry. *)
Theorem sweep_ignores_prefix (name pre sfx : string) (now : time.Time) (f : FileInfo)
    (rest : list FileInfo) (acc : list fragInfo) :
  String.length pre = (String.length (filepath.Base name) + 1)%nat →
  time.in_range now = true → time.offset now ≠ 0 →
  IsDir f = false → Name f ≠ name → Name f = pre +:+ time.Format now +:+ sfx →
  collect name (f :: rest) acc = collect name rest (acc ++ [mkFrag (time.to_second now) f]).
Proof.
  intros Hlen Hr Hoff Hd Hne Hname.
  rewrite collect_cons, Hd, decide_False by exact Hne.
  unfold stamp_lo, stamp_hi. rewrite <- Hlen, <- (length_Format_zone now Hoff), Hname.
  rewrite slice_middle, (Parse_Format now Hr). reflexivity.
Qed.

(** An archive of [server.log] beside the archives of [comrot.log]: the
    loop takes it for a fragment, and a sweep with [MaxFiles = 1] over
    it and one newer archive of [comrot.log] removes it. *)
Lemma sweep_ignores_prefix_witness :
  let other := "crt/server.log." +:+ time.Format (cet 0) in
  let x := set_files {[ logDir := NDir;
                        other := NFile (bytes "theirs") 420;
                        archive_name 1 := NFile (bytes "ours") 420 ]}
                     (fresh_world (cet 2)) in
  collect logFile [info_of other (NFile (bytes "theirs") 420)] []
  = Val [mkFrag (cet 0) (info_of other (NFile (bytes "theirs") 420))]
  ∧ ∃ x', drain (mkSt (test_writer 56 1 false) x) = (Val tt, mkSt (test_writer 56 1 false) x')
          ∧ files x' !! other = None
          ∧ files x' !! archive_name 1 = Some (NFile (bytes "ours") 420).
Proof.
  intros other x. split.
  - apply (sweep_ignores_prefix logFile "server.log." EmptyString (cet 0)
             (info_of other (NFile (bytes "theirs") 420)) [] []);
      [reflexivity | reflexivity | discriminate | reflexivity | discriminate | reflexivity].
  - eexists. split; [vm_compute; reflexivity |]. split; vm_compute; reflexivity.
Defined.

(** ** The files the writer touches *)

Lemma Create_frame (path q : string) (x : World) :
  (q ≠ path → files (os.Create path x).2 !! q = files x !! q)
  ∧ (files x !! path ≠ Some NDir → files (os.Create path x).2 !! path ≠ Some NDir).
Proof.
  unfold os.Create. pose proof (next_fault_files x) as Hf.
  destruct (sys.next_fault x) as [[ft|] x1]; cbn [fst snd] in *; [rewrite Hf; auto |].
  rewrite <- Hf. destruct (negb _); [auto |].
  destruct (files x1 !! path) as [[d m|]|] eqn:Hp; cbn; [| auto |].
  - split; [intros Hq; apply lookup_insert_ne; congruence |].
    rewrite lookup_insert_eq. discriminate.
  - split; [intros Hq; apply lookup_insert_ne; congruence |].
    rewrite lookup_insert_eq. discriminate.
Qed.

Lemma Write_frame (f : option OsFile) (out : list byte) (x : World) (q : string) :
  ((∀ h, f = Some h → q ≠ fname h) → files (os.Write f out x).2 !! q = files x !! q)
  ∧ (files x !! q ≠ Some NDir → files (os.Write f out x).2 !! q ≠ Some NDir).
Proof.
  unfold os.Write. destruct f as [h|]; [| auto].
  destruct (negb (sys.is_open x h)); [auto |].
  pose proof (next_fault_files x) as Hf.
  destruct (sys.next_fault x) as [flt x1]. cbn [snd] in Hf. rewrite <- Hf.
  destruct (files x1 !! fname h) as [[d m|]|] eqn:Hp; cbn; [| auto | auto].
  split.
  - intros Hq. apply lookup_insert_ne. specialize (Hq h eq_refl). congruence.
  - intros Hnd. destruct (decide (fname h = q)) as [<-|Hne].
    + rewrite lookup_insert_eq. discriminate.
    + rewrite lookup_insert_ne by exact Hne. exact Hnd.
Qed.

Lemma Rename_frame (old new q : string) (x : World) :
  files x !! old ≠ Some NDir →
  (q ≠ old → q ≠ new → files (os.Rename old new x).2 !! q = files x !! q)
  ∧ (old ≠ new → files (os.Rename old new x).2 !! old ≠ Some NDir).
Proof.
  intros Hnd. unfold os.Rename. pose proof (next_fault_files x) as Hf.
  destruct (sys.next_fault x) as [[ft|] x1]; cbn [fst snd] in *; [rewrite Hf; auto |].
  rewrite <- Hf in *.
  destruct (files x1 !! old) as [[d m|]|] eqn:Hold; [| congruence | cbn; rewrite Hold; auto].
  cbv zeta. destruct (negb _); [cbn; rewrite Hold; auto |].
  assert (Hmoved : (q ≠ old → q ≠ new →
                    (<[new := NFile d m]> (delete old (files x1))) !! q = files x1 !! q)
                   ∧ (old ≠ new →
                      (<[new := NFile d m]> (delete old (files x1))) !! old ≠ Some NDir)).
  { split.
    - intros H1 H2. rewrite lookup_insert_ne, lookup_delete_ne by congruence. reflexivity.
    - intros H1. rewrite lookup_insert_ne, lookup_delete_eq by congruence. discriminate. }
  destruct (files x1 !! new) as [[d' m'|]|]; cbn; rewrite ?Hold; auto.
Qed.

Lemma open_own `{Gzip} (s : St) (p : string) :
  (p ≠ filename (obj s) → files (env (open s).2) !! p = files (env s) !! p)
  ∧ filename (obj (open s).2) = filename (obj s)
  ∧ (settled s → ∀ v, (open s).1 = Val v → settled (open s).2).
Proof.
  destruct s as [w x]. cbn [obj env]. split; [| split].
  - intros Hp. rewrite open_unfold.
    pose proof (Stat_files (filename w) x) as HS.
    destruct (os.Stat (filename w) x) as [st x1]. cbn [snd] in HS.
    assert (Hcreate : files (env (let '(f, err, x2) := os.Create (filename w) x1 in
                                  (Val err, mkSt (set_fsize 0 (set_fp f w)) x2)).2) !! p
                      = files x !! p).
    { destruct (Create_frame (filename w) p x1) as [Hc _].
      destruct (os.Create (filename w) x1) as [[f err] x2]. cbn [snd env] in *.
      rewrite Hc, HS by exact Hp. reflexivity. }
    assert (Happend : ∀ st' : FileInfo + Errno,
              files (env (let '(f, err, x2) := os.OpenFile_append (filename w) x1 in
                          match err, st' with
                          | Some e, _ => (Val (Some e), mkSt (set_fp f w) x2)
                          | None, inl info =>
                              (Val None, mkSt (set_fsize (Size info) (set_fp f w)) x2)
                          | None, inr _ =>
                              (Panic "invalid memory address or nil pointer dereference",
                               mkSt (set_fp f w) x2)
                          end).2) !! p
              = files x !! p).
    { intros st'. pose proof (OpenFile_append_result (filename w) x1) as HO.
      destruct (os.OpenFile_append (filename w) x1) as [[[h|] [e|]] x2]; try contradiction.
      - destruct HO as (_ & _ & Hf & _). destruct st'; cbn; rewrite Hf, HS; reflexivity.
      - destruct HO as (Hf & _). cbn. rewrite Hf, HS. reflexivity. }
    destruct st as [i|e]; [exact (Happend (inl i)) |].
    destruct e; try exact (Happend (inr EIO)). exact Hcreate.
  - pose proof (open_outcome w x) as Hout.
    destruct (open (mkSt w x)) as [[[e|]|msg] s']; cbn [snd]; apply Hout.
  - intros (Hmax & Hh & Hnd) v Hv. cbn [obj env] in *.
    pose proof (open_outcome w x) as Hout. pose proof (open_tracked (mkSt w x)) as Ht.
    destruct (open (mkSt w x)) as [[[e|]|msg] s']; cbn [fst snd] in *; [| | discriminate].
    + destruct Hout as (Hn & _ & Hm & _ & Hf). destruct Ht as [Ht _].
      split; [congruence |]. split; [intros h Hfp; apply (Ht h Hfp) |].
      rewrite Hn, Hf. exact Hnd.
    + destruct Hout as (Hn & _ & Hm & _ & h & data & mode & Hfp & Hname & _ & Hp & _).
      destruct Ht as [Ht _].
      split; [congruence |]. split; [intros h' Hfp'; apply (Ht h' Hfp') |].
      rewrite Hn, Hp. discriminate.
Qed.

Lemma compress_own `{Gzip} (source : string) (s : St) (q : string) :
  q ≠ source → q ≠ source +:+ ".gz" →
  files (env (compress source s).2) !! q = files (env s) !! q.
Proof.
  intros H1 H2. destruct s as [w x]. rewrite compress_unfold.
  pose proof (Open_files source x) as Hf1.
  destruct (os.Open source x) as [[rawfile err] x1]. cbn [snd] in Hf1.
  destruct rawfile as [raw|], err as [e|]; cbn [snd env]; try (rewrite Hf1; reflexivity).
  pose proof (FStat_files (Some raw) x1) as Hf2.
  destruct (os.FStat (Some raw) x1) as [[i|e] x2]; cbn [snd] in Hf2.
  2:{ cbn [snd env]. rewrite Close_files, Hf2, Hf1. reflexivity. }
  pose proof (Read_files raw (Z.to_nat (Size i)) x2) as Hf3.
  destruct (bufio.Read raw (Z.to_nat (Size i)) x2) as [[rawbytes err] x3]. cbn [snd] in Hf3.
  destruct err as [e|].
  { cbn [snd env]. rewrite Close_files, Hf3, Hf2, Hf1. reflexivity. }
  pose proof (WriteFile_result (source +:+ ".gz") (gzip rawbytes) (Mode i) x3) as HW.
  destruct (ioutil.WriteFile _ _ _ x3) as [err x4]. destruct HW as (_ & Hother & _).
  destruct err as [e|]; cbn [snd env]; rewrite Close_files.
  - rewrite Hother, Hf3, Hf2, Hf1 by exact H2. reflexivity.
  - destruct (Remove_result source x4) as (_ & Hrest & _).
    rewrite Hrest, Hother, Hf3, Hf2, Hf1 by assumption. reflexivity.
Qed.

Lemma drain_open_own `{Gzip} (s : St) (p : string) :
  MaxFiles (obj s) = MaxInt →
  (p ≠ filename (obj s) → files (env ((drain;; open) s).2) !! p = files (env s) !! p)
  ∧ filename (obj ((drain;; open) s).2) = filename (obj s)
  ∧ (settled s → ∀ v, ((drain;; open) s).1 = Val v → settled ((drain;; open) s).2).
Proof.
  intros Hmax. unfold mbind, M_bind. destruct s as [w x].
  rewrite (drain_unbounded w x Hmax). apply open_own.
Qed.

Lemma rotate_own `{Gzip} (s : St) (p : string) :
  settled s → foreign (filename (obj s)) p →
  files (env (rotate s).2) !! p = files (env s) !! p
  ∧ filename (obj (rotate s).2) = filename (obj s)
  ∧ ∀ v, (rotate s).1 = Val v → settled (rotate s).2.
Proof.
  destruct s as [w x]. intros (Hmax & Hh & Hnd) (Hp & Harch). cbn [obj env] in *.
  rewrite rotate_unfold.
  set (w1 := match fp w with Some _ => set_fp None w | None => w end).
  assert (Hfp1 : fp w1 = None) by (unfold w1; destruct (fp w) eqn:E; [reflexivity | exact E]).
  assert (Hn1 : filename w1 = filename w) by (unfold w1; destruct (fp w); reflexivity).
  assert (Hm1 : MaxFiles w1 = MaxInt) by (unfold w1; destruct (fp w); exact Hmax).
  assert (Hclosed : ∀ y, files y !! filename w ≠ Some NDir → settled (mkSt w1 y)).
  { intros y Hy. split; [exact Hm1 |]. split; [| cbn; rewrite Hn1; exact Hy].
    intros h Hfp. cbn in Hfp. congruence. }
  assert (Hf1 : files (match fp w with
                       | Some h => os.Close (Some h) x
                       | None => (None, x)
                       end).2 = files x).
  { destruct (fp w); [apply Close_files | reflexivity]. }
  destruct (match fp w with Some h => os.Close (Some h) x | None => (None, x) end)
    as [[e|] x1]; cbn [snd] in Hf1.
  { cbn [fst snd obj env]. rewrite Hf1. split; [reflexivity |]. split; [exact Hn1 |].
    intros _ _. apply Hclosed. rewrite Hf1. exact Hnd. }
  pose proof (Stat_files (filename w) x1) as Hf2.
  destruct (os.Stat (filename w) x1) as [[i|e] x2]; cbn [snd] in Hf2.
  2:{ destruct (drain_open_own (mkSt w1 x2) p Hm1) as (Hfr & Hname & Hset).
      cbn [obj env] in *. rewrite Hn1 in *.
      split; [rewrite Hfr, Hf2, Hf1 by exact Hp; reflexivity |]. split; [exact Hname |].
      intros v Hv. apply (Hset (Hclosed x2 ltac:(rewrite Hf2, Hf1; exact Hnd)) v Hv). }
  cbv zeta. set (rot := filename w +:+ "." +:+ time.Format (clock x2)).
  destruct (Harch (clock x2)) as [Hpr Hpg]. fold rot in Hpr, Hpg.
  assert (Hrn : filename w ≠ rot).
  { intros Heq. symmetry in Heq. revert Heq. apply archive_not_log. exists (clock x2). reflexivity. }
  assert (Hnd2 : files x2 !! filename w ≠ Some NDir) by (rewrite Hf2, Hf1; exact Hnd).
  destruct (Rename_frame (filename w) rot p x2 Hnd2) as [Hfr3 Hk3].
  specialize (Hfr3 Hp Hpr). specialize (Hk3 Hrn).
  destruct (os.Rename (filename w) rot x2) as [[e|] x3]; cbn [snd] in Hfr3, Hk3.
  { cbn [fst snd obj env]. split; [rewrite Hfr3, Hf2, Hf1; reflexivity |].
    split; [exact Hn1 |]. intros _ _. apply Hclosed. exact Hk3. }
  assert (Htail : ∀ s4, obj s4 = w1 → files (env s4) !! p = files x !! p →
                        files (env s4) !! filename w ≠ Some NDir →
            files (env ((drain;; open) s4).2) !! p = files x !! p
            ∧ filename (obj ((drain;; open) s4).2) = filename w
            ∧ ∀ v, ((drain;; open) s4).1 = Val v → settled ((drain;; open) s4).2).
  { intros [w4 x4] Hobj Hp4 Hnd4. cbn [obj env] in *. subst w4.
    destruct (drain_open_own (mkSt w1 x4) p Hm1) as (Hfr & Hname & Hset).
    cbn [obj env] in *. rewrite Hn1 in *.
    split; [rewrite Hfr, Hp4 by exact Hp; reflexivity |]. split; [exact Hname |].
    intros v Hv. apply (Hset (Hclosed x4 Hnd4) v Hv). }
  destruct (Compress w).
  - pose proof (compress_frame rot (mkSt w1 x3)) as [Hobj _].
    pose proof (compress_own rot (mkSt w1 x3) p Hpr Hpg) as Hfr4.
    assert (Hk4 : files (env (compress rot (mkSt w1 x3)).2) !! filename w ≠ Some NDir).
    { rewrite compress_own; [exact Hk3 | exact Hrn |].
      intros Heq. symmetry in Heq. revert Heq. apply archive_gz_not_log.
      exists (clock x2). reflexivity. }
    destruct (compress rot (mkSt w1 x3)) as [[[e|]|msg] s4]; cbn [snd obj env] in *.
    + cbn [fst snd]. split; [rewrite Hfr4, Hfr3, Hf2, Hf1; reflexivity |].
      split; [rewrite Hobj; exact Hn1 |]. intros _ _.
      destruct s4 as [w4 x4]. cbn [obj env] in *. subst w4. apply Hclosed. exact Hk4.
    + apply Htail; [exact Hobj | rewrite Hfr4, Hfr3, Hf2, Hf1; reflexivity | exact Hk4].
    + cbn [fst snd]. split; [rewrite Hfr4, Hfr3, Hf2, Hf1; reflexivity |].
      split; [rewrite Hobj; exact Hn1 |]. intros v Hv. discriminate.
  - apply Htail; [reflexivity | cbn; rewrite Hfr3, Hf2, Hf1; reflexivity | exact Hk3].
Qed.

Lemma Write_own `{Gzip} (out : list byte) (s : St) (p : string) :
  settled s → foreign (filename (obj s)) p →
  files (env (Write out s).2) !! p = files (env s) !! p
  ∧ filename (obj (Write out s).2) = filename (obj s)
  ∧ ∀ v, (Write out s).1 = Val v → settled (Write out s).2.
Proof.
  destruct s as [w x]. intros Hset Hfor. rewrite Write_unfold. cbv zeta. cbn [obj env].
  assert (Htail : ∀ s1, settled s1 → filename (obj s1) = filename w →
                        files (env s1) !! p = files x !! p →
    let r := match (if MaxSize (obj s1) <? wrap64 (fsize (obj s1) + Z.of_nat (length out))
                    then rotate s1 else (Val None, s1)) with
             | (Val _, s2) =>
                 let '(n, err, x3) := os.Write (fp (obj s2)) out (env s2) in
                 (Val (n, err), mkSt (set_fsize (wrap64 (fsize (obj s2) + n)) (obj s2)) x3)
             | (Panic msg, s2) => (Panic msg, s2)
             end in
    files (env r.2) !! p = files x !! p
    ∧ filename (obj r.2) = filename w
    ∧ ∀ v, r.1 = Val v → settled r.2).
  { intros s1 Hs1 Hn1 Hp1.
    assert (Hfor1 : foreign (filename (obj s1)) p) by (rewrite Hn1; exact Hfor).
    assert (H2 : let r2 := if MaxSize (obj s1) <? wrap64 (fsize (obj s1) + Z.of_nat (length out))
                           then rotate s1 else (Val None, s1) in
                 files (env r2.2) !! p = files x !! p
                 ∧ filename (obj r2.2) = filename w
                 ∧ ∀ v, r2.1 = Val v → settled r2.2).
    { destruct (MaxSize (obj s1) <? _); cbv zeta; [| auto].
      destruct (rotate_own s1 p Hs1 Hfor1) as (Ha & Hb & Hc).
      split; [congruence |]. split; [congruence | exact Hc]. }
    cbv zeta in H2.
    destruct (if MaxSize (obj s1) <? wrap64 (fsize (obj s1) + Z.of_nat (length out))
              then rotate s1 else (Val None, s1)) as [[e|msg] s2]; cbn [fst snd] in H2.
    2:{ cbv zeta. cbn [fst snd]. destruct H2 as (Ha & Hb & _).
        split; [exact Ha |]. split; [exact Hb |]. intros v Hv. discriminate. }
    destruct H2 as (Ha & Hb & Hc). specialize (Hc e eq_refl).
    destruct Hc as (Hmax2 & Hh2 & Hnd2).
    destruct (Write_frame (fp (obj s2)) out (env s2) p) as [Hfr _].
    destruct (Write_frame (fp (obj s2)) out (env s2) (filename (obj s2))) as [_ Hk].
    destruct (os.Write (fp (obj s2)) out (env s2)) as [[n err] x3]. cbv zeta.
    cbn [fst snd obj env] in *.
    split.
    { rewrite Hfr; [exact Ha |]. intros h Hfp. rewrite (Hh2 h Hfp), Hb. apply Hfor. }
    split; [exact Hb |]. intros _ _.
    split; [exact Hmax2 |]. split; [exact Hh2 |]. cbn. apply Hk. exact Hnd2. }
  destruct (fp w) as [h|] eqn:Hfp.
  - apply (Htail (mkSt w x) Hset); reflexivity.
  - destruct (open_own (mkSt w x) p) as (Ha & Hb & Hc). cbn [obj env] in *.
    specialize (Ha (proj1 Hfor)). specialize (Hc Hset).
    destruct (open (mkSt w x)) as [[e|msg] s1]; cbn [fst snd] in *.
    + apply (Htail s1 (Hc e eq_refl) Hb Ha).
    + split; [exact Ha |]. split; [exact Hb |]. intros v Hv. discriminate.
Qed.

Lemma step_own `{Gzip} (c : time.Time * Op) (s : St) (p : string) :
  settled s → foreign (filename (obj s)) p →
  files (env (step c s).2) !! p = files (env s) !! p
  ∧ filename (obj (step c s).2) = filename (obj s)
  ∧ ∀ r, (step c s).1 = Val r → settled (step c s).2.
Proof.
  intros Hset Hfor. rewrite step_unfold. cbv zeta.
  set (s0 := mkSt (obj s) (set_clock c.1 (env s))).
  assert (Hset0 : settled s0) by exact Hset.
  assert (Hfor0 : foreign (filename (obj s0)) p) by exact Hfor.
  destruct c.2 as [out|].
  - destruct (Write_own out s0 p Hset0 Hfor0) as (Ha & Hb & Hc).
    destruct (Write out s0) as [[[n err]|msg] s']; cbn [fst snd] in *.
    + split; [exact Ha |]. split; [exact Hb |]. intros _ _. apply (Hc _ eq_refl).
    + split; [exact Ha |]. split; [exact Hb |]. intros r Hr. discriminate.
  - destruct (rotate_own s0 p Hset0 Hfor0) as (Ha & Hb & Hc). unfold Rotate.
    destruct (rotate s0) as [[err|msg] s']; cbn [fst snd] in *.
    + split; [exact Ha |]. split; [exact Hb |]. intros _ _. apply (Hc _ eq_refl).
    + split; [exact Ha |]. split; [exact Hb |]. intros r Hr. discriminate.
Qed.

(** X20. With unbounded retention the writer touches no file but its
    own, whatever the environment does: through every run of writes and
    rotations, under every pattern of failures and also when a call
    panics, a path that is neither the log nor the name of an archive of
    it, plain or compressed, holds at the end what it held at the start. *)
Theorem writer_touches_only_its_files `{Gzip} (cs : list (time.Time * Op)) (s : St)
    (p : string) :
  settled s → foreign (filename (obj s)) p →
  files (env (run cs s).2) !! p = files (env s) !! p.
Proof.
  revert s. induction cs as [|c cs IH]; intros s Hset Hfor; [reflexivity |].
  rewrite run_cons. destruct (step_own c s p Hset Hfor) as (Ha & Hb & Hc).
  destruct (step c s) as [[r|msg] s1]; cbn [fst snd] in *; [| exact Ha].
  specialize (IH s1 (Hc r eq_refl)). rewrite Hb in IH. specialize (IH Hfor).
  destruct (run cs s1) as [[rs|msg] s']; cbn [snd] in *; congruence.
Qed.

(** The run of writes and rotations of the tests beside a file of
    notes, on a system that refuses the second call and the fifth. *)
Lemma writer_touches_only_its_files_witness :
  let x := set_faults [None; Some (mkFault EACCES 0); None; None; Some (mkFault EIO 0)]
             (set_files {[ logDir := NDir; "crt/notes.txt" := NFile (bytes "keep") 420 ]}
                        (fresh_world (cet 0))) in
  files (env (run retention_run (mkSt (test_writer 1 MaxInt true) x)).2) !! "crt/notes.txt"
  = Some (NFile (bytes "keep") 420).
Proof.
  intros x.
  rewrite (writer_touches_only_its_files retention_run (mkSt (test_writer 1 MaxInt true) x)
             "crt/notes.txt").
  - reflexivity.
  - split; [reflexivity |]. split; [intros h Hh; discriminate | vm_compute; discriminate].
  - split; [vm_compute; discriminate |].
    intros now. change (filename (obj (mkSt (test_writer 1 MaxInt true) x)))
      with "crt/comrot.log".
    split; intros Heq; rewrite ?string_app_assoc, !string_app_cons in Heq; discriminate.
Defined.

(** ** What Write reports *)

(** X21. [Write] keeps the contract of [io.Writer] under every pattern
    of failures: the count it returns is between 0 and [len(out)], a
    count short of [len(out)] comes with an error, and the bytes it
    reports as written are on disk as the last bytes of the log, after
    whatever opening or rotation the call made on the way. *)
Theorem Write_reports_what_the_log_gained `{Gzip} (s s' : St) (out : list byte)
    (n : Z) (err : error) :
  tracked s → Write out s = (Val (n, err), s') →
  0 ≤ n ≤ Z.of_nat (length out)
  ∧ (err = None → n = Z.of_nat (length out))
  ∧ filename (obj s') = filename (obj s)
  ∧ ∃ pre, content (env s') (filename (obj s)) = pre ++ take (Z.to_nat n) out.
Proof.
  destruct s as [w x]. intros Ht. rewrite Write_unfold. cbv zeta. cbn [obj].
  assert (Htail : ∀ s1, tracked s1 → filename (obj s1) = filename w →
    match (if MaxSize (obj s1) <? wrap64 (fsize (obj s1) + Z.of_nat (length out))
           then rotate s1 else (Val None, s1)) with
    | (Val _, s2) =>
        let '(n, err, x3) := os.Write (fp (obj s2)) out (env s2) in
        (Val (n, err), mkSt (set_fsize (wrap64 (fsize (obj s2) + n)) (obj s2)) x3)
    | (Panic msg, s2) => (Panic msg, s2)
    end = (Val (n, err), s') →
    0 ≤ n ≤ Z.of_nat (length out)
    ∧ (err = None → n = Z.of_nat (length out))
    ∧ filename (obj s') = filename w
    ∧ ∃ pre, content (env s') (filename w) = pre ++ take (Z.to_nat n) out).
  { intros s1 Ht1 Hn1.
    assert (H2 : match (if MaxSize (obj s1) <? wrap64 (fsize (obj s1) + Z.of_nat (length out))
                        then rotate s1 else (Val None, s1)) with
                 | (Val _, s2) => tracked s2 ∧ filename (obj s2) = filename w
                 | (Panic _, _) => True
                 end).
    { destruct (MaxSize (obj s1) <? _); [| auto].
      pose proof (rotate_tracked s1) as Hr.
      destruct (rotate s1) as [[e|msg] s2]; [| exact I].
      destruct Hr as [Hr1 Hr2]. split; [exact Hr1 | congruence]. }
    destruct (if MaxSize (obj s1) <? wrap64 (fsize (obj s1) + Z.of_nat (length out))
              then rotate s1 else (Val None, s1)) as [[e|msg] [w2 x2]]; [| discriminate].
    destruct H2 as [Ht2 Hn2]. cbn [obj env] in *.
    pose proof (Write_result (fp w2) out x2) as HW.
    destruct (os.Write (fp w2) out x2) as [[n' err'] x3].
    destruct HW as (Hrange & Hnil & Hgrow).
    intros [= -> -> <-]. cbn [obj env filename set_fsize].
    split; [exact Hrange |].
    destruct (fp w2) as [h|] eqn:Hfp.
    - destruct (Ht2 h Hfp) as (Hin & Hname & d & m & Hp & _). cbn [obj env] in *.
      rewrite <- Hname in Hp.
      destruct (Hgrow h d m eq_refl Hin Hp) as (Hnew & Hfull).
      split; [exact Hfull |]. split; [exact Hn2 |].
      exists d. unfold content. rewrite <- Hn2, <- Hname, Hnew. reflexivity.
    - destruct (Hnil eq_refl) as (-> & -> & ->).
      split; [discriminate |]. split; [exact Hn2 |].
      exists (content x2 (filename w)). cbn. rewrite app_nil_r. reflexivity. }
  destruct (fp w) as [h|] eqn:Hfp.
  - apply (Htail (mkSt w x) Ht). reflexivity.
  - pose proof (open_tracked (mkSt w x)) as Ho.
    destruct (open (mkSt w x)) as [[e|msg] s1]; [| discriminate].
    destruct Ho as [Ho1 Ho2]. apply (Htail s1 Ho1 Ho2).
Qed.

(** The writer of the tests on a system that lets three bytes of a
    write through and then reports a full disk. *)
Lemma Write_reports_what_the_log_gained_witness :
  let s := mkSt (test_writer 56 10 false)
                (set_faults [None; None; Some (mkFault ENOSPC 3)] (fresh_world (cet 0))) in
  Write (bytes "hello") s = (Val (3, Some ENOSPC), (Write (bytes "hello") s).2)
  ∧ ∃ pre, content (env (Write (bytes "hello") s).2) logFile = pre ++ bytes "hel".
Proof.
  intros s.
  assert (Hrun : Write (bytes "hello") s = (Val (3, Some ENOSPC), (Write (bytes "hello") s).2))
    by (vm_compute; reflexivity).
  split; [exact Hrun |].
  destruct (Write_reports_what_the_log_gained s (Write (bytes "hello") s).2 (bytes "hello")
              3 (Some ENOSPC)) as (_ & _ & _ & pre & Hpre).
  - intros h Hh. discriminate.
  - exact Hrun.
  - exists pre. exact Hpre.
Defined.
